(** * Resume / job-description similarity: scripts/similarity/get_similarity_score.py

    The script is glue around three collaborators: a YAML configuration
    file, the Cohere embedding client and the Qdrant vector store.  The
    embedding below keeps the program as it is written (classes become
    records, methods become functions taking [self], [try]/[except] becomes
    [try_catch]) and makes every collaborator call an explicit step of an
    exception-and-trace monad: a call asks the environment [E] for its
    response, records the call together with the response in the trace, and
    raises when the response is an exception. *)

From stdpp Require Import gmap strings list sorting.

Local Open Scope string_scope.
Local Open Scope list_scope.
Set Warnings "-register-all".

(** ** Python values the script handles *)

(** What [yaml.safe_load] can return; [YNull] is Python's [None], which is
    also what [read_config] returns after a failure.  [YScalar] stands for
    the scalars the script has no use for (floats, dates, ...), with the
    name of their Python type. *)
Inductive yaml :=
| YNull
| YBool (b : bool)
| YInt (z : Z)
| YStr (s : string)
| YScalar (type_name : string)
| YSeq (l : list yaml)
| YMap (m : gmap string yaml).

(** Exceptions: the classes the script names or provokes itself; everything
    a collaborator may raise besides is [OtherException].  All of them are
    subclasses of [Exception], so [except Exception] catches each. *)
Inductive exn_class :=
| FileNotFoundError | YAMLError | TypeError | KeyError | IndexError
| OtherException.

Record exn := Exn { exn_class_of : exn_class; exn_text : string }.

Inductive result (A : Type) :=
| Returned (a : A)
| Raised (e : exn).
Arguments Returned {A} a.
Arguments Raised {A} e.

(** [models.Distance] *)
Inductive Distance := COSINE | EUCLID | DOT.

Inductive log_level := INFO | ERROR.

(** The module logger ([logging.getLogger(__name__)]) and the logger of the
    class ([logging.getLogger(self.__class__.__name__)]). *)
Inductive logger_name := ModuleLogger | ClassLogger.

Record log_record := LogRecord {
  log_logger : logger_name;
  log_level_of : log_level;
  log_message : string;
  log_exc_info : bool
}.

(** A payload is a dictionary; the only ones this script stores are
    [{"text": resume}]. *)
Abbreviation payload := (gmap string string).

(** A Python [str] is a sequence of code points; it is kept here as its
    UTF-8 encoding, the bytes of a Rocq string.  In UTF-8 a code point is one
    byte that is not of the form 10xxxxxx, followed by bytes that are. *)
Definition is_continuation (c : Ascii.ascii) : bool :=
  match c with
  | Ascii.Ascii _ _ _ _ _ _ b6 b7 => b7 && negb b6
  end.

(** [len(s)]: the number of code points. *)
Fixpoint code_points (s : string) : nat :=
  match s with
  | EmptyString => 0
  | String c s' =>
      if is_continuation c then code_points s' else S (code_points s')
  end.

(** [s[:n]]: the first [n] code points of [s], each with all its bytes. *)
Fixpoint slice_to (n : nat) (s : string) {struct s} : string :=
  match s with
  | EmptyString => EmptyString
  | String c s' =>
      if is_continuation c then String c (slice_to n s')
      else match n with
           | 0 => EmptyString
           | S n' => String c (slice_to n' s')
           end
  end.

Section Script.

(** Python floats are only passed along, never computed with: the type is
    left open. *)
Context {float : Type}.

(** [models.Batch] *)
Record Batch := MkBatch {
  ids : list nat;
  vectors : list (list float);
  payloads : list payload
}.

(** A hit of [QdrantClient.search] ([ScoredPoint]). *)
Record ScoredPoint := MkScoredPoint {
  hit_id : nat;
  hit_score : float;
  hit_payload : option payload
}.

(** An entry of the list [search] returns: [{"text": ..., "score": ...}]. *)
Record MatchResult := MkMatchResult {
  text : string;
  score : float
}.

(** ** Collaborator calls and traces *)

Inductive event :=
| EvLoadYaml (path : string) (r : result yaml)
| EvCohereClient (key : yaml) (r : result unit)
| EvQdrantClient (url key : yaml) (r : result unit)
| EvRecreate (name : string) (size : nat) (d : Distance) (r : result bool)
| EvEmbed (texts : list string) (model : string)
          (r : result (list (list float)))
| EvUpsert (name : string) (points : Batch) (r : result unit)
| EvSearch (name : string) (query : list float) (limit : nat)
           (r : result (list ScoredPoint))
| EvLog (l : log_record).

(** The environment: how each collaborator answers in a state [S] of the
    outside world (file system, Cohere, Qdrant). *)
Record env (S : Type) := MkEnv {
  load_yaml : S → string → result yaml * S;
  cohere_client : S → yaml → result unit * S;
  qdrant_client : S → yaml → yaml → result unit * S;
  recreate_collection : S → string → nat → Distance → result bool * S;
  embed : S → list string → string → result (list (list float)) * S;
  upsert : S → string → Batch → result unit * S;
  qsearch : S → string → list float → nat → result (list ScoredPoint) * S
}.
Arguments load_yaml {S}.
Arguments cohere_client {S}.
Arguments qdrant_client {S}.
Arguments recreate_collection {S}.
Arguments embed {S}.
Arguments upsert {S}.
Arguments qsearch {S}.

Context {S : Type} (E : env S).

(** Python's [str] on a payload (a dictionary or [None]); the rendering is
    the interpreter's. *)
Context (py_str : option payload → string).

(** The module-level global [config_path], computed at import time from
    the working directory. *)
Context (config_path : string).

(** ** The monad: state of the world, exceptions, trace of calls *)

Definition M (A : Type) : Type := S → result A * S * list event.

Definition ret {A} (a : A) : M A := λ s, (Returned a, s, []).

Definition raise {A} (e : exn) : M A := λ s, (Raised e, s, []).

Definition bind {A B} (m : M A) (k : A → M B) : M B :=
  λ s, match m s with
       | (Returned a, s1, t1) =>
           match k a s1 with (r, s2, t2) => (r, s2, t1 ++ t2) end
       | (Raised e, s1, t1) => (Raised e, s1, t1)
       end.

(** [try: m except Exception as e: h e] *)
Definition try_catch {A} (m : M A) (h : exn → M A) : M A :=
  λ s, match m s with
       | (Returned a, s1, t1) => (Returned a, s1, t1)
       | (Raised e, s1, t1) =>
           match h e s1 with (r, s2, t2) => (r, s2, t1 ++ t2) end
       end.

Definition perform {A} (h : S → result A * S) (ev : result A → event)
  : M A :=
  λ s, match h s with (r, s1) => (r, s1, [ev r]) end.

Definition log (l : log_record) : M unit := λ s, (Returned (), s, [EvLog l]).

Notation "x <- c1 ;; c2" := (bind c1 (λ x, c2))
  (at level 100, c1 at next level, right associativity).
Notation "c1 ;; c2" := (bind c1 (λ _, c2))
  (at level 100, right associativity).

(** ** Python operations that can raise *)

(** [v[k]] for a string key [k]. *)
Definition subscript (v : yaml) (k : string) : M yaml :=
  match v with
  | YMap m =>
      match m !! k with
      | Some x => ret x
      | None => raise (Exn KeyError ("'" +:+ k +:+ "'"))
      end
  | YNull => raise (Exn TypeError "'NoneType' object is not subscriptable")
  | YBool _ => raise (Exn TypeError "'bool' object is not subscriptable")
  | YInt _ => raise (Exn TypeError "'int' object is not subscriptable")
  | YStr _ => raise (Exn TypeError "string indices must be integers")
  | YScalar type_name =>
      raise (Exn TypeError ("'" +:+ type_name +:+ "' object is not subscriptable"))
  | YSeq _ =>
      raise (Exn TypeError "list indices must be integers or slices, not str")
  end.

(** [l[0]] *)
Definition item0 {A} (l : list A) : M A :=
  match l with
  | x :: _ => ret x
  | [] => raise (Exn IndexError "list index out of range")
  end.

(** [a, b = v] where [v] is a pair or [None]. *)
Definition unpack2 {A B} (v : option (A * B)) : M (A * B) :=
  match v with
  | Some p => ret p
  | None => raise (Exn TypeError "cannot unpack non-iterable NoneType object")
  end.

(** ** The script *)

Definition collection_name : string := "collection_resume_matcher".

(** The local [vector_size] of [__init__]. *)
Definition vector_size : nat := 4096.

(** [open(filepath)] followed by [yaml.safe_load(f)]. *)
Definition safe_load (filepath : string) : M yaml :=
  perform (λ s, load_yaml E s filepath) (EvLoadYaml filepath).

Definition read_config (filepath : string) : M yaml :=
  try_catch (safe_load filepath)
    (λ e,
      match exn_class_of e with
      | FileNotFoundError =>
          log (LogRecord ModuleLogger ERROR
            ("Configuration file " +:+ filepath +:+ " not found: "
               +:+ exn_text e) false)
      | YAMLError =>
          log (LogRecord ModuleLogger ERROR
            ("Error parsing YAML in configuration file " +:+ filepath
               +:+ ": " +:+ exn_text e) true)
      | _ =>
          log (LogRecord ModuleLogger ERROR
            ("Error reading configuration file " +:+ filepath +:+ ": "
               +:+ exn_text e) false)
      end;;
      ret YNull).

(** The fields of a [QdrantSearch] object.  The two client objects are
    handles on the environment and carry no data of their own. *)
Record QdrantSearch := MkQdrantSearch {
  cohere_key : yaml;
  qdrant_key : yaml;
  qdrant_url : yaml;
  resumes : list string;
  jd : string
}.

(** [QdrantSearch.__init__] *)
Definition QdrantSearch_init (resumes0 : list string) (jd0 : string)
  : M QdrantSearch :=
  config <- read_config (config_path +:+ "/config.yml");;
  c1 <- subscript config "cohere";;
  cohere_key0 <- subscript c1 "api_key";;
  q1 <- subscript config "qdrant";;
  qdrant_key0 <- subscript q1 "api_key";;
  q2 <- subscript config "qdrant";;
  qdrant_url0 <- subscript q2 "url";;
  perform (λ s, cohere_client E s cohere_key0) (EvCohereClient cohere_key0);;
  perform (λ s, qdrant_client E s qdrant_url0 qdrant_key0)
          (EvQdrantClient qdrant_url0 qdrant_key0);;
  perform (λ s, recreate_collection E s collection_name vector_size COSINE)
          (EvRecreate collection_name vector_size COSINE);;
  ret (MkQdrantSearch cohere_key0 qdrant_key0 qdrant_url0 resumes0 jd0).

(** [QdrantSearch.get_embedding]: the pair (vector, length), or [None]
    after a logged failure.  [float] applied to a float is the identity. *)
Definition get_embedding (self : QdrantSearch) (text0 : string)
  : M (option (list float * nat)) :=
  try_catch
    (embeddings <- perform (λ s, embed E s [text0] "large")
                           (EvEmbed [text0] "large");;
     e0 <- item0 embeddings;;
     ret (Some (e0, length e0)))
    (λ e,
      log (LogRecord ClassLogger ERROR
             ("Error getting embeddings: " +:+ exn_text e) true);;
      ret None).

(** The loop of [update_qdrant]: [i] is the counter of [enumerate]. *)
Fixpoint update_loop (self : QdrantSearch) (i : nat) (rs : list string)
    (vectors0 : list (list float)) (ids0 : list nat)
  : M (list (list float) * list nat) :=
  match rs with
  | [] => ret (vectors0, ids0)
  | resume :: rest =>
      got <- get_embedding self resume;;
      unpacked <- unpack2 got;;
      let '(vector, _) := unpacked in
      update_loop self (Datatypes.S i) rest (vectors0 ++ [vector]) (ids0 ++ [i])
  end.

(** [QdrantSearch.update_qdrant] *)
Definition update_qdrant (self : QdrantSearch) : M unit :=
  filled <- update_loop self 0 (resumes self) [] [];;
  let '(vectors0, ids0) := filled in
  try_catch
    (let points :=
       MkBatch ids0 vectors0
               (map (λ resume, {[ "text" := resume ]}) (resumes self)) in
     perform (λ s, upsert E s collection_name points)
             (EvUpsert collection_name points))
    (λ e,
      log (LogRecord ClassLogger ERROR
             ("Error upserting the vectors to the qdrant collection: "
                +:+ exn_text e) true)).

(** The loop of [search]. *)
Fixpoint search_loop (hits : list ScoredPoint) (results : list MatchResult)
  : list MatchResult :=
  match hits with
  | [] => results
  | hit :: rest =>
      let result0 :=
        MkMatchResult (slice_to 30 (py_str (hit_payload hit)))
                      (hit_score hit) in
      search_loop rest (results ++ [result0])
  end.

(** [QdrantSearch.search] *)
Definition search (self : QdrantSearch) : M (list MatchResult) :=
  got <- get_embedding self (jd self);;
  unpacked <- unpack2 got;;
  let '(vector, _) := unpacked in
  hits <- perform (λ s, qsearch E s collection_name vector 30)
                  (EvSearch collection_name vector 30);;
  ret (search_loop hits []).

Definition get_similarity_score (resume_string job_description_string : string)
  : M (list MatchResult) :=
  log (LogRecord ModuleLogger INFO "Started getting similarity score" false);;
  qdrant_search <- QdrantSearch_init [resume_string] job_description_string;;
  update_qdrant qdrant_search;;
  search_result <- search qdrant_search;;
  log (LogRecord ModuleLogger INFO "Finished getting similarity score" false);;
  ret search_result.

End Script.

Arguments Batch : clear implicits.
Arguments ScoredPoint : clear implicits.
Arguments MatchResult : clear implicits.
Arguments event : clear implicits.
Arguments env : clear implicits.
Arguments M : clear implicits.

Arguments load_yaml {float S}.
Arguments cohere_client {float S}.
Arguments qdrant_client {float S}.
Arguments recreate_collection {float S}.
Arguments embed {float S}.
Arguments upsert {float S}.
Arguments qsearch {float S}.

(** ** Reading traces *)

(** What a response to an embedding request yields in [get_embedding]: the
    first embedding, when the call returned and there is one. *)
Definition embedded {float} (resp : result (list (list float)))
  : option (list float) :=
  match resp with
  | Returned (v :: _) => Some v
  | _ => None
  end.

(** The events [__init__] can produce. *)
Definition setup_event {float} (ev : event float) : Prop :=
  match ev with
  | EvLoadYaml _ _ | EvCohereClient _ _ | EvQdrantClient _ _ _
  | EvRecreate _ _ _ _ | EvLog _ => True
  | _ => False
  end.

(** The collection an event writes to or reads from, if it is an [upsert] or
    a [search]. *)
Definition accessed {float} (ev : event float) : option string :=
  match ev with
  | EvUpsert name _ _ | EvSearch name _ _ _ => Some name
  | _ => None
  end.

(** The claim that the collection is sized to the embeddings, on a trace. *)
Definition collection_sized_to_embeddings {float} (t : list (event float))
  : Prop :=
  ∀ name size d r texts model vs v,
    EvRecreate name size d r ∈ t →
    EvEmbed texts model (Returned vs) ∈ t →
    v ∈ vs →
    size = length v.

(** An outcome that reports an unusable configuration. *)
Definition fails_with_configuration_error {A} (r : result A) : Prop :=
  ∃ e, r = Raised e ∧
       (exn_class_of e = FileNotFoundError ∨ exn_class_of e = YAMLError).

(** A collaborator call that gave the script what it asked for: an embedding
    request answered with at least one embedding, a search answered with
    hits. *)
Definition answered {float} (ev : event float) : Prop :=
  match ev with
  | EvEmbed _ _ resp => is_Some (embedded resp)
  | EvSearch _ _ _ resp => ∃ hits, resp = Returned hits
  | _ => True
  end.

(** The batches handed to [upsert] in a trace, in order. *)
Fixpoint upserts {float} (t : list (event float)) : list (Batch float) :=
  match t with
  | [] => []
  | EvUpsert _ points _ :: t' => points :: upserts t'
  | _ :: t' => upserts t'
  end.

(** The points of a batch as (identifier, payload) pairs. *)
Definition batch_points {float} (b : Batch float) : list (nat * payload) :=
  zip (ids b) (payloads b).

(** The events [get_embedding] can produce. *)
Definition embedding_event {float} (ev : event float) : Prop :=
  match ev with
  | EvEmbed _ _ _ | EvLog _ => True
  | _ => False
  end.

(** The embedding calls of a loop that ran to its end: one per resume, in
    order, each answered with a first embedding and the rest of the list. *)
Definition embed_events {float} (rs : list string)
    (resps : list (list float * list (list float))) : list (event float) :=
  zip_with (λ resume p, EvEmbed [resume] "large" (Returned (p.1 :: p.2)))
           rs resps.

(** What [upsert] is called with for the resumes [rs] and their vectors. *)
Definition resume_batch {float} (rs : list string) (vs : list (list float))
  : Batch float :=
  MkBatch (seq 0 (length rs)) vs (map (λ resume, {[ "text" := resume ]}) rs).

(** The exception of unpacking [None] into two names. *)
Definition unpack_error : exn :=
  Exn TypeError "cannot unpack non-iterable NoneType object".

(** What [get_embedding] logs for a response. *)
Definition embedding_log {float} (resp : result (list (list float)))
  : list (event float) :=
  match resp with
  | Returned (_ :: _) => []
  | Returned [] =>
      [EvLog (LogRecord ClassLogger ERROR
                "Error getting embeddings: list index out of range" true)]
  | Raised e =>
      [EvLog (LogRecord ClassLogger ERROR
                ("Error getting embeddings: " +:+ exn_text e) true)]
  end.

(** What [update_qdrant] logs for a response of [upsert]. *)
Definition upsert_log {float} (resp : result unit) : list (event float) :=
  match resp with
  | Returned _ => []
  | Raised e =>
      [EvLog (LogRecord ClassLogger ERROR
                ("Error upserting the vectors to the qdrant collection: "
                   +:+ exn_text e) true)]
  end.

(** [s] does not begin in the middle of a code point. *)
Definition at_boundary (s : string) : Prop :=
  match s with
  | EmptyString => True
  | String c _ => is_continuation c = false
  end.

(** [t] consists of the first [n] characters (code points) of [s], all of
    [s] when it has fewer: [t] has that many code points, and [s] is [t]
    followed by a rest that begins with a whole code point. *)
Definition first_chars (n : nat) (s t : string) : Prop :=
  code_points t = Nat.min n (code_points s) ∧
  ∃ rest, s = t +:+ rest ∧ at_boundary rest.

(** ** The runs of [get_similarity_score] *)

Definition started {float} : event float :=
  EvLog (LogRecord ModuleLogger INFO "Started getting similarity score" false).

Definition finished {float} : event float :=
  EvLog (LogRecord ModuleLogger INFO "Finished getting similarity score" false).

Section Runs.

Context {float S : Type} (E : env float S).
Context (py_str : option payload → string) (config_path : string).

(** The five ways a call of [get_similarity_score] can go, each with the
    responses of the environment that lead there, the outcome, and the
    trace.  [get_similarity_score_run] below shows every call goes one of
    them. *)
Inductive run_of (resume_string jd0 : string) (s : S)
  : result (list (MatchResult float)) → S → list (event float) → Prop :=
| run_init_raises e s1 t0 :
    QdrantSearch_init E config_path [resume_string] jd0 s = (Raised e, s1, t0) →
    run_of resume_string jd0 s (Raised e) s1 (started :: t0)
| run_resume_unembedded self s1 t0 resp s2 :
    QdrantSearch_init E config_path [resume_string] jd0 s
    = (Returned self, s1, t0) →
    embed E s1 [resume_string] "large" = (resp, s2) →
    embedded resp = None →
    run_of resume_string jd0 s (Raised unpack_error) s2
      (started :: t0 ++ EvEmbed [resume_string] "large" resp :: embedding_log resp)
| run_jd_unembedded self s1 t0 v vs s2 uresp s3 resp s4 :
    QdrantSearch_init E config_path [resume_string] jd0 s
    = (Returned self, s1, t0) →
    embed E s1 [resume_string] "large" = (Returned (v :: vs), s2) →
    upsert E s2 collection_name (resume_batch [resume_string] [v]) = (uresp, s3) →
    embed E s3 [jd0] "large" = (resp, s4) →
    embedded resp = None →
    run_of resume_string jd0 s (Raised unpack_error) s4
      (started :: t0
         ++ EvEmbed [resume_string] "large" (Returned (v :: vs))
         :: EvUpsert collection_name (resume_batch [resume_string] [v]) uresp
         :: upsert_log uresp
         ++ EvEmbed [jd0] "large" resp :: embedding_log resp)
| run_search_raises self s1 t0 v vs s2 uresp s3 q qs s4 e s5 :
    QdrantSearch_init E config_path [resume_string] jd0 s
    = (Returned self, s1, t0) →
    embed E s1 [resume_string] "large" = (Returned (v :: vs), s2) →
    upsert E s2 collection_name (resume_batch [resume_string] [v]) = (uresp, s3) →
    embed E s3 [jd0] "large" = (Returned (q :: qs), s4) →
    qsearch E s4 collection_name q 30 = (Raised e, s5) →
    run_of resume_string jd0 s (Raised e) s5
      (started :: t0
         ++ EvEmbed [resume_string] "large" (Returned (v :: vs))
         :: EvUpsert collection_name (resume_batch [resume_string] [v]) uresp
         :: upsert_log uresp
         ++ [EvEmbed [jd0] "large" (Returned (q :: qs));
             EvSearch collection_name q 30 (Raised e)])
| run_returns self s1 t0 v vs s2 uresp s3 q qs s4 hits s5 :
    QdrantSearch_init E config_path [resume_string] jd0 s
    = (Returned self, s1, t0) →
    embed E s1 [resume_string] "large" = (Returned (v :: vs), s2) →
    upsert E s2 collection_name (resume_batch [resume_string] [v]) = (uresp, s3) →
    embed E s3 [jd0] "large" = (Returned (q :: qs), s4) →
    qsearch E s4 collection_name q 30 = (Returned hits, s5) →
    run_of resume_string jd0 s (Returned (search_loop py_str hits [])) s5
      (started :: t0
         ++ EvEmbed [resume_string] "large" (Returned (v :: vs))
         :: EvUpsert collection_name (resume_batch [resume_string] [v]) uresp
         :: upsert_log uresp
         ++ [EvEmbed [jd0] "large" (Returned (q :: qs));
             EvSearch collection_name q 30 (Returned hits);
             finished]).

(** What the script relies on from the vector store, for a reading
    [contents s name] of the points (identifier, payload) that collection
    [name] holds in state [s]: recreating a collection empties it, an upsert
    adds at most the points of its batch, asking for embeddings leaves the
    store alone, and a search returns points of the collection. *)
Record store_contract (contents : S → string → list (nat * payload)) : Prop := {
  recreate_wipes s name size d b s' :
    recreate_collection E s name size d = (Returned b, s') →
    contents s' name = [];
  upsert_adds s name points r s' p :
    upsert E s name points = (r, s') →
    p ∈ contents s' name →
    p ∈ contents s name ∨ p ∈ batch_points points;
  embed_keeps s texts model r s' :
    embed E s texts model = (r, s') → contents s' = contents s;
  search_reads s name query limit hits s' hit :
    qsearch E s name query limit = (Returned hits, s') →
    hit ∈ hits →
    ∃ pl, hit_payload hit = Some pl ∧ (hit_id hit, pl) ∈ contents s name
}.

End Runs.

(** ** An in-memory stand-in for the collaborators

    Used to run the script on concrete inputs: floats are integers, the
    store keeps, per collection, the points last upserted, and a search
    ranks them by dot product with the query. *)

Abbreviation stub_point := (nat * payload * list Z)%type.

Definition stub_dot (u v : list Z) : Z := foldr Z.add 0%Z (zip_with Z.mul u v).

Definition stub_hit (query : list Z) (p : stub_point) : ScoredPoint Z :=
  MkScoredPoint p.1.1 (stub_dot query p.2) (Some p.1.2).

Definition stub_ge (a b : ScoredPoint Z) : Prop :=
  (hit_score b ≤ hit_score a)%Z.

#[local] Instance stub_ge_dec a b : Decision (stub_ge a b).
Proof. unfold stub_ge. apply _. Defined.

Definition stub_points (b : Batch Z) : list stub_point :=
  zip (zip (ids b) (payloads b)) (vectors b).

Definition stub_overwrite (old new : list stub_point) : list stub_point :=
  filter (λ p, p.1.1 ∉ new.*1.*1) old ++ new.

Definition stub_missing : exn := Exn OtherException "Collection not found".

Definition stub_env (cfg : result yaml) (emb : string → result (list (list Z)))
  : env Z (gmap string (list stub_point)) :=
  {| load_yaml := λ s _, (cfg, s);
     cohere_client := λ s _, (Returned (), s);
     qdrant_client := λ s _ _, (Returned (), s);
     recreate_collection := λ s name _ _, (Returned true, <[name := []]> s);
     embed := λ s texts _,
       (match texts with
        | [t] => emb t
        | _ => Raised (Exn OtherException "one text at a time")
        end, s);
     upsert := λ s name b,
       match s !! name with
       | Some old => (Returned (), <[name := stub_overwrite old (stub_points b)]> s)
       | None => (Raised stub_missing, s)
       end;
     qsearch := λ s name query limit,
       match s !! name with
       | Some pts =>
           (Returned (take limit (merge_sort stub_ge (stub_hit query <$> pts))), s)
       | None => (Raised stub_missing, s)
       end |}.

Definition stub_contents (s : gmap string (list stub_point)) (name : string)
  : list (nat * payload) :=
  (default [] (s !! name)).*1.

Definition stub_config : yaml :=
  YMap {[ "cohere" := YMap {[ "api_key" := YStr "cohere-key" ]};
          "qdrant" := YMap {[ "api_key" := YStr "qdrant-key";
                              "url" := YStr "https://qdrant.example" ]} ]}.

(** A rendering in the manner of Python's for the payloads stored here. *)
Definition stub_str (p : option payload) : string :=
  match p with
  | None => "None"
  | Some d => "{'text': '" +:+ default "" (d !! "text") +:+ "'}"
  end.

(** An embedding of [dim] coordinates. *)
Definition stub_embedding (dim : nat) (t : string) : result (list (list Z)) :=
  Returned [replicate dim (Z.of_nat (String.length t))].

(** A store left behind by an earlier run. *)
Definition stub_stale : gmap string (list stub_point) :=
  {[ collection_name := [(7, {[ "text" := "an older resume" ]}, [1; 1; 1]%Z)] ]}.

(** The stand-in with a readable configuration and embeddings of three
    coordinates. *)
Definition stub_ok : env Z (gmap string (list stub_point)) :=
  stub_env (Returned stub_config) (stub_embedding 3).

(** The same with the vector store answering every search with three hits
    of its own choosing, as a store written to by others would. *)
Definition stub_many : env Z (gmap string (list stub_point)) :=
  {| load_yaml := load_yaml stub_ok;
     cohere_client := cohere_client stub_ok;
     qdrant_client := qdrant_client stub_ok;
     recreate_collection := recreate_collection stub_ok;
     embed := embed stub_ok;
     upsert := upsert stub_ok;
     qsearch := λ s _ _ _,
       (Returned [MkScoredPoint 0 9%Z (Some {[ "text" := "first resume" ]});
                  MkScoredPoint 4 5%Z None;
                  MkScoredPoint 2 5%Z (Some {[ "text" := "third" ]})], s) |}.

(** The same with a search whose first hit carries text outside ASCII,
    longer than the 30 characters the script keeps. *)
Definition stub_accented : env Z (gmap string (list stub_point)) :=
  {| load_yaml := load_yaml stub_ok;
     cohere_client := cohere_client stub_ok;
     qdrant_client := qdrant_client stub_ok;
     recreate_collection := recreate_collection stub_ok;
     embed := embed stub_ok;
     upsert := upsert stub_ok;
     qsearch := λ s _ _ _,
       (Returned
          [MkScoredPoint 0 9%Z
             (Some {[ "text" := "ééééééééééééééééééééééééé" ]});
           MkScoredPoint 3 2%Z (Some {[ "text" := "plain" ]})], s) |}.

(** The same with [upsert], respectively [search], out of service. *)
Definition stub_upsert_down : env Z (gmap string (list stub_point)) :=
  {| load_yaml := load_yaml stub_ok;
     cohere_client := cohere_client stub_ok;
     qdrant_client := qdrant_client stub_ok;
     recreate_collection := recreate_collection stub_ok;
     embed := embed stub_ok;
     upsert := λ s _ _, (Raised (Exn OtherException "upsert timed out"), s);
     qsearch := qsearch stub_ok |}.

Definition stub_search_down : env Z (gmap string (list stub_point)) :=
  {| load_yaml := load_yaml stub_ok;
     cohere_client := cohere_client stub_ok;
     qdrant_client := qdrant_client stub_ok;
     recreate_collection := recreate_collection stub_ok;
     embed := embed stub_ok;
     upsert := upsert stub_ok;
     qsearch := λ s _ _ _, (Raised (Exn OtherException "search timed out"), s) |}.

(** The stand-in with the embedding service out of service. *)
Definition stub_embed_down : env Z (gmap string (list stub_point)) :=
  stub_env (Returned stub_config)
           (λ _, Raised (Exn OtherException "503 Service Unavailable")).

(** The stand-in without a configuration file. *)
Definition stub_unconfigured : env Z (gmap string (list stub_point)) :=
  stub_env (Raised (Exn FileNotFoundError "No such file or directory"))
           (stub_embedding 3).

Definition stub_resume : string := "python backend developer docker kubernetes".
Definition stub_jd : string := "backend engineer python containers".

(** The value a call returned, [d] if it raised. *)
Definition value_of {A} (d : A) (r : result A) : A :=
  match r with
  | Returned a => a
  | Raised _ => d
  end.

(** Runs of the script on the stand-ins, from the store [stub_stale]. *)
Definition stub_run (E : env Z (gmap string (list stub_point)))
  : result (list (MatchResult Z)) * gmap string (list stub_point)
    * list (event Z) :=
  get_similarity_score E stub_str "/srv" stub_resume stub_jd stub_stale.

(** A [QdrantSearch] object as [__init__] leaves it on the stand-in. *)
Definition stub_self (resumes0 : list string) : QdrantSearch :=
  MkQdrantSearch (YStr "cohere-key") (YStr "qdrant-key")
                 (YStr "https://qdrant.example") resumes0 stub_jd.

(** [update_qdrant] on the stand-in, for an object holding [resumes0], in the
    store as [__init__] leaves it. *)
Definition stub_update (resumes0 : list string)
  : result unit * gmap string (list stub_point) * list (event Z) :=
  update_qdrant stub_ok (stub_self resumes0)
                (<[collection_name := []]> stub_stale).

(** ** [find_path] *)

(** An absolute, normalised path, as [os.getcwd] returns it, is the list of
    its names from the root down; [[]] is "/".  [os.path.dirname] drops the
    last name and leaves "/" as it is; [os.path.join] with a plain name adds
    it at the end. *)
Definition dirname (p : list string) : list string := take (length p - 1) p.

Definition join (p : list string) (name : string) : list string := p ++ [name].

(** How a call of [find_path] ends: it returns a path, raises its
    [ValueError], or [os.listdir] raised. *)
Inductive find_outcome :=
| Found (p : list string)
| NotFound (message : string)
| ListingRaised (e : exn).

Section FindPath.

(** [os.listdir] on the file system the script runs in. *)
Context (listdir : list string → result (list string)).

(** The [while True] loop of [find_path], from [curr_dir] on; [None] when
    [fuel] rounds were not enough to leave it. *)
Fixpoint find_loop (fuel : nat) (folder_name : string) (curr_dir : list string)
  : option find_outcome :=
  match fuel with
  | 0 => None
  | Datatypes.S fuel' =>
      match listdir curr_dir with
      | Raised e => Some (ListingRaised e)
      | Returned names =>
          if bool_decide (folder_name ∈ names)
          then Some (Found (join curr_dir folder_name))
          else
            let parent_dir := dirname curr_dir in
            if bool_decide (parent_dir = [])
            then Some (NotFound ("Folder '" +:+ folder_name +:+ "' not found."))
            else find_loop fuel' folder_name parent_dir
      end
  end.

(** [find_path folder_name], started in the working directory [cwd]. *)
Definition find_path (cwd : list string) (folder_name : string)
  : option find_outcome :=
  find_loop (Datatypes.S (length cwd)) folder_name cwd.

End FindPath.

(** ** More ways to read a configuration and a trace *)

(** The entry [cfg[section][key]] of a loaded configuration, when [cfg] and
    [cfg[section]] are mappings that have it. *)
Definition config_entry (cfg : yaml) (section key : string) : option yaml :=
  match cfg with
  | YMap m =>
      match m !! section with
      | Some (YMap c) => c !! key
      | _ => None
      end
  | _ => None
  end.

(** The texts of the embedding requests of a trace, in order. *)
Fixpoint embed_requests {float} (t : list (event float)) : list (list string) :=
  match t with
  | [] => []
  | EvEmbed texts _ _ :: t' => texts :: embed_requests t'
  | _ :: t' => embed_requests t'
  end.

(** The collaborators. *)
Inductive call :=
| LoadYaml | CohereClient | QdrantClient | Recreate | Embed | Upsert | Search.

(** The collaborator calls of a trace, in order (log lines left out). *)
Fixpoint calls {float} (t : list (event float)) : list call :=
  match t with
  | [] => []
  | ev :: t' =>
      match ev with
      | EvLoadYaml _ _ => LoadYaml :: calls t'
      | EvCohereClient _ _ => CohereClient :: calls t'
      | EvQdrantClient _ _ _ => QdrantClient :: calls t'
      | EvRecreate _ _ _ _ => Recreate :: calls t'
      | EvEmbed _ _ _ => Embed :: calls t'
      | EvUpsert _ _ _ => Upsert :: calls t'
      | EvSearch _ _ _ _ => Search :: calls t'
      | EvLog _ => calls t'
      end
  end.

(** A file system for the stand-in: the project under "/home/dev", a stray
    folder of the same name in "/", and the working directory three levels
    down in the project. *)
Definition stub_listdir (p : list string) : result (list string) :=
  if bool_decide (p = []) then Returned ["home"; "ATS_hacking"; "tmp"]
  else if bool_decide (p = ["home"]) then Returned ["dev"]
  else if bool_decide (p = ["home"; "dev"]) then Returned ["ATS_hacking"; "notes"]
  else if bool_decide (p = ["home"; "dev"; "ATS_hacking"])
       then Returned ["Data"; "scripts"]
  else if bool_decide (p = ["home"; "dev"; "ATS_hacking"; "scripts"])
       then Returned ["similarity"]
  else if bool_decide (p = ["ATS_hacking"]) then Returned ["Data"; "scripts"]
  else if bool_decide (p = ["ATS_hacking"; "scripts"]) then Returned ["similarity"]
  else Raised (Exn FileNotFoundError "No such file or directory").

(** A configuration without the address of the vector store. *)
Definition stub_config_no_url : yaml :=
  YMap {[ "cohere" := YMap {[ "api_key" := YStr "cohere-key" ]};
          "qdrant" := YMap {[ "api_key" := YStr "qdrant-key" ]} ]}.

(** The stand-in with an embedding service that fails on the text "beta". *)
Definition stub_embed_flaky : env Z (gmap string (list stub_point)) :=
  stub_env (Returned stub_config)
           (λ t, if bool_decide (t = "beta")
                 then Raised (Exn OtherException "429 Too Many Requests")
                 else stub_embedding 3 t).

(** The message of the [ValueError] of [find_path]. *)
Definition not_found_message (folder_name : string) : string :=
  "Folder '" +:+ folder_name +:+ "' not found.".

(** The levels the loop of [find_path] has looked into and left: every
    ancestor of [cwd] deeper than [k], down to [j], was listed and does not
    hold the folder. *)
Definition passed (listdir : list string → result (list string))
    (cwd : list string) (folder_name : string) (k j : nat) : Prop :=
  ∀ i, (k < i ≤ j)%nat →
    ∃ names, listdir (take i cwd) = Returned names ∧ folder_name ∉ names.

(** * Properties *)

Lemma slice_to_length s : ∀ n,
  code_points (slice_to n s) = Nat.min n (code_points s).
Proof.
  induction s as [|c s IH]; intros n; simpl.
  - by rewrite Nat.min_0_r.
  - destruct (is_continuation c) eqn:Hc; simpl.
    + by rewrite Hc.
    + destruct n as [|n]; [done|]. simpl. by rewrite Hc, IH.
Qed.

Lemma slice_to_prefix s : ∀ n,
  ∃ rest, s = slice_to n s +:+ rest ∧ at_boundary rest.
Proof.
  induction s as [|c s IH]; intros n; simpl.
  - by exists "".
  - destruct (is_continuation c) eqn:Hc.
    + destruct (IH n) as (rest & Hrest & Hb). exists rest. split; [|done].
      change (String c s = String c (slice_to n s +:+ rest)). by f_equal.
    + destruct n as [|n]; [by exists (String c s)|].
      destruct (IH n) as (rest & Hrest & Hb). exists rest. split; [|done].
      change (String c s = String c (slice_to n s +:+ rest)). by f_equal.
Qed.

Lemma slice_to_first_chars n s : first_chars n s (slice_to n s).
Proof. split; [apply slice_to_length | apply slice_to_prefix]. Qed.

Section Properties.

Context {float S : Type} (E : env float S).
Context (py_str : option payload → string) (config_path : string).

Implicit Types (s : S) (t : list (event float)) (self : QdrantSearch).

(** ** Running the monad *)

Lemma bind_run {A B} (m : M float S A) (k : A → M float S B) s r s' t :
  bind m k s = (r, s', t) →
  (∃ a s1 t1 t2,
      m s = (Returned a, s1, t1) ∧ k a s1 = (r, s', t2) ∧ t = t1 ++ t2)
  ∨ (∃ e, m s = (Raised e, s', t) ∧ r = Raised e).
Proof.
  unfold bind. destruct (m s) as [[[a|e] s1] t1].
  - destruct (k a s1) as [[r2 s2] t2] eqn:Hk. intros [= <- <- <-].
    left. by exists a, s1, t1, t2.
  - intros [= <- <- <-]. right. by exists e.
Qed.

Lemma subscript_run v k s :
  ∃ r, @subscript float S v k s = (r, s, []).
Proof.
  destruct v; simpl; try (eexists; reflexivity).
  destruct (m !! k); eexists; reflexivity.
Qed.

(** [read_config] never raises: after a failure it returns [None]. *)
Lemma read_config_run filepath s :
  ∃ resp s1 logs,
    load_yaml E s filepath = (resp, s1) ∧
    read_config E filepath s
    = (Returned (match resp with Returned c => c | Raised _ => YNull end),
       s1, EvLoadYaml filepath resp :: logs) ∧
    match resp with
    | Returned _ => logs = []
    | Raised e =>
        ∃ msg info, logs = [EvLog (LogRecord ModuleLogger ERROR msg info)]
    end.
Proof.
  unfold read_config, try_catch, safe_load, perform.
  destruct (load_yaml E s filepath) as [[c|e] s1].
  - by exists (Returned c), s1, [].
  - exists (Raised e), s1. destruct e as [[] txt]; simpl; eexists;
      (split; [done|]); (split; [reflexivity|]); by eexists _, _.
Qed.

(** [get_embedding] never raises either: a failed call, or an empty list
    of embeddings, is logged and answered with [None]. *)
Lemma get_embedding_run self text0 s :
  ∃ resp s1,
    embed E s [text0] "large" = (resp, s1) ∧
    get_embedding E self text0 s
    = (Returned ((λ v, (v, length v)) <$> embedded resp), s1,
       EvEmbed [text0] "large" resp :: embedding_log resp).
Proof.
  unfold get_embedding, try_catch, bind, perform.
  destruct (embed E s [text0] "large") as [[[|v vs]|e] s1];
    eexists _, s1; by split.
Qed.

Lemma perform_run {A} (h : S → result A * S) ev s r s' t :
  perform h ev s = (r, s', t) → h s = (r, s') ∧ t = [ev r].
Proof.
  unfold perform. destruct (h s) as [r1 s1]. by intros [= <- <- <-].
Qed.

Lemma subscript_step {B} v k (f : yaml → M float S B) s r s' t :
  bind (subscript v k) f s = (r, s', t) →
  (∃ x, f x s = (r, s', t)) ∨ (∃ e, r = Raised e ∧ s' = s ∧ t = []).
Proof.
  intros H. destruct (subscript_run v k s) as [r0 Hr0].
  apply bind_run in H as [(x & s1 & t1 & t2 & Hm & H & ->)|(e & Hm & ->)];
    rewrite Hr0 in Hm; injection Hm as -> <- <-.
  - left. by exists x.
  - right. by exists e.
Qed.

Lemma perform_step {A B} (h : S → result A * S) ev
    (f : A → M float S B) s r s' t :
  bind (perform h ev) f s = (r, s', t) →
  (∃ a s1 t2, h s = (Returned a, s1) ∧ f a s1 = (r, s', t2)
              ∧ t = ev (Returned a) :: t2)
  ∨ (∃ e, h s = (Raised e, s') ∧ r = Raised e ∧ t = [ev (Raised e)]).
Proof.
  intros H.
  apply bind_run in H as [(x & s1 & t1 & t2 & Hm & H & ->)|(e & Hm & ->)];
    apply perform_run in Hm as [Hm ->].
  - left. by exists x, s1, t2.
  - right. by exists e.
Qed.

(** [__init__]: only set-up events; every [recreate_collection] it issues
    names the collection with size 4096 and cosine distance; and when it
    returns, the last thing it did was a [recreate_collection] that
    returned. *)
Lemma init_run resumes0 jd0 s r s' t :
  QdrantSearch_init E config_path resumes0 jd0 s = (r, s', t) →
  Forall setup_event t ∧
  (∀ name size d resp,
      EvRecreate name size d resp ∈ t →
      name = collection_name ∧ size = vector_size ∧ d = COSINE) ∧
  ∀ self, r = Returned self →
    resumes self = resumes0 ∧ jd self = jd0 ∧
    ∃ t0 s0 b,
      t = t0 ++ [EvRecreate collection_name vector_size COSINE (Returned b)] ∧
      recreate_collection E s0 collection_name vector_size COSINE
      = (Returned b, s').
Proof.
  intros H. unfold QdrantSearch_init in H.
  destruct (read_config_run (config_path +:+ "/config.yml") s)
    as (resp & s1 & logs & _ & Hrc & Hlogs).
  assert (Hsetup : Forall setup_event
            (EvLoadYaml (config_path +:+ "/config.yml") resp :: logs)).
  { constructor; [done|]. destruct resp as [c|e].
    - subst logs. constructor.
    - destruct Hlogs as (msg & info & ->). by repeat constructor. }
  assert (Hnone : ∀ name size d r0,
            EvRecreate name size d r0
              ∉ EvLoadYaml (config_path +:+ "/config.yml") resp :: logs).
  { intros name size d r0 Hin. apply list_elem_of_In in Hin.
    destruct Hin as [Hin|Hin]; [done|]. destruct resp as [c|e].
    - by subst logs.
    - destruct Hlogs as (msg & info & ->). by destruct Hin. }
  apply bind_run in H as [(cfg & s1' & t1 & t2 & Hm & H & ->)|(e & Hm & ->)];
    rewrite Hrc in Hm; [|done]. injection Hm as <- <- <-. clear Hrc Hlogs.
  set (cfg := match resp with Returned c => c | Raised _ => YNull end) in H.
  clearbody cfg.
  cut (Forall setup_event t2 ∧
       (∀ name size d r0,
           EvRecreate name size d r0 ∈ t2 →
           name = collection_name ∧ size = vector_size ∧ d = COSINE) ∧
       ∀ self, r = Returned self →
         resumes self = resumes0 ∧ jd self = jd0 ∧
         ∃ t0 s0 b,
           t2 = t0 ++ [EvRecreate collection_name vector_size COSINE (Returned b)] ∧
           recreate_collection E s0 collection_name vector_size COSINE
           = (Returned b, s')).
  { intros (Hall & Hrec & Hret). split; [|split].
    - by apply Forall_app.
    - intros name size d r0 [Hin|Hin]%elem_of_app; [|by eapply Hrec].
      by apply Hnone in Hin.
    - intros self Hself.
      destruct (Hret self Hself) as (? & ? & t0 & s0 & b & -> & Hs0).
      split; [done|]. split; [done|].
      exists ((EvLoadYaml (config_path +:+ "/config.yml") resp :: logs) ++ t0),
        s0, b. by rewrite <- app_assoc. }
  clear Hsetup Hnone.
  do 6 (apply subscript_step in H as [[? H]|(e & -> & -> & ->)];
        [|split; [constructor|split; [by intros ???? ?%elem_of_nil|done]]]).
  apply perform_step in H
    as [(? & sa & ta & Ha & H & ->)|(e & Ha & -> & ->)].
  2: { split; [by repeat constructor|]. split; [|done].
       by intros ???? [?|?%elem_of_nil]%elem_of_cons. }
  apply perform_step in H
    as [(? & sb & tb & Hb & H & ->)|(e & Hb & -> & ->)].
  2: { split; [by repeat constructor|]. split; [|done].
       by intros ???? [?|[?|?%elem_of_nil]%elem_of_cons]%elem_of_cons. }
  apply perform_step in H
    as [(b & sc & tc & Hc & H & ->)|(e & Hc & -> & ->)].
  2: { split; [by repeat constructor|]. split; [|done].
       intros ???? [?|[?|[?|?%elem_of_nil]%elem_of_cons]%elem_of_cons]%elem_of_cons;
         by simplify_eq. }
  injection H as <- <- <-.
  split; [by repeat constructor|]. split.
  - intros ???? [?|[?|[?|?%elem_of_nil]%elem_of_cons]%elem_of_cons]%elem_of_cons;
      by simplify_eq.
  - intros self [= <-]. split; [done|]. split; [done|].
    by eexists [_; _], sb, b.
Qed.

(** The loop of [update_qdrant].  It either runs to its end, having asked
    for one embedding per resume and numbered them from [i] on, or stops
    with a [TypeError] at the first resume whose embedding failed.  Either
    way it does nothing but ask for embeddings. *)
Lemma update_loop_run self rs : ∀ i vs0 is0 s r s' t,
  update_loop E self i rs vs0 is0 s = (r, s', t) →
  Forall embedding_event t ∧
  match r with
  | Returned (vs1, is1) =>
      ∃ resps,
        length resps = length rs ∧ t = embed_events rs resps ∧
        vs1 = vs0 ++ resps.*1 ∧ is1 = is0 ++ seq i (length rs)
  | Raised e =>
      e = unpack_error ∧
      ∃ texts model resp,
        EvEmbed texts model resp ∈ t ∧ embedded resp = None
  end.
Proof.
  induction rs as [|resume rest IH]; intros i vs0 is0 s r s' t H.
  - injection H as <- <- <-. split; [constructor|].
    exists []. by rewrite !app_nil_r.
  - cbn [update_loop] in H.
    destruct (get_embedding_run self resume s) as (resp & s1 & He & Hg).
    apply bind_run in H as [(got & s1' & t1 & t2 & Hm & H & ->)|(e & Hm & ->)];
      rewrite Hg in Hm; [|done]. injection Hm as <- <- <-.
    assert (Hlog : Forall embedding_event
              (EvEmbed [resume] "large" resp :: embedding_log resp)).
    { constructor; [done|]. destruct resp as [[|??]|?]; by repeat constructor. }
    destruct (embedded resp) as [v|] eqn:Hv; simpl in H.
    + apply bind_run in H
        as [(un & s2 & t3 & t4 & Hm & H & ->)|(e & Hm & ->)]; [|done].
      injection Hm as <- <- <-. simpl in H.
      apply IH in H as (Hall & Hres).
      split; [by apply Forall_app|].
      destruct r as [[vs1 is1]|e].
      * destruct Hres as (resps & Hlen & -> & -> & ->).
        destruct resp as [[|v' vs']|?]; simplify_eq/=.
        exists ((v, vs') :: resps). simpl.
        split; [by f_equal|]. split; [done|].
        by rewrite <- !app_assoc.
      * destruct Hres as (-> & texts & model & resp' & Hin & Hnone).
        split; [done|]. exists texts, model, resp'.
        split; [|done]. apply elem_of_app. right. by rewrite app_nil_l.
    + apply bind_run in H
        as [(un & s2 & t3 & t4 & Hm & H & ->)|(e & Hm & ->)]; [done|].
      injection Hm as <- <- <-. rewrite app_nil_r.
      split; [done|].
      split; [done|]. exists [resume], "large", resp.
      split; [apply elem_of_cons; by left|done].
Qed.

Lemma search_loop_spec (hits : list (ScoredPoint float)) : ∀ results,
  search_loop py_str hits results
  = results ++
    map (λ hit, MkMatchResult (slice_to 30 (py_str (hit_payload hit)))
                              (hit_score hit)) hits.
Proof.
  induction hits as [|hit rest IH]; intros results; simpl.
  - by rewrite app_nil_r.
  - by rewrite IH, <- app_assoc.
Qed.

(** [update_qdrant] either stops in its loop, or calls [upsert] once, with
    the batch of all resumes, and returns whatever [upsert] did. *)
Lemma update_qdrant_run self s r s' t :
  update_qdrant E self s = (r, s', t) →
  (r = Raised unpack_error ∧ Forall embedding_event t ∧
   ∃ texts model resp, EvEmbed texts model resp ∈ t ∧ embedded resp = None)
  ∨ (∃ resps s1 uresp,
       r = Returned () ∧ length resps = length (resumes self) ∧
       upsert E s1 collection_name (resume_batch (resumes self) resps.*1)
       = (uresp, s') ∧
       t = embed_events (resumes self) resps
           ++ EvUpsert collection_name
                (resume_batch (resumes self) resps.*1) uresp
           :: upsert_log uresp).
Proof.
  unfold update_qdrant. intros H.
  apply bind_run in H as [(f & s1 & t1 & t2 & Hm & H & ->)|(e & Hm & ->)];
    apply update_loop_run in Hm as (Hall & Hres).
  - right. destruct f as [vs1 is1].
    destruct Hres as (resps & Hlen & -> & -> & ->).
    unfold try_catch, perform in H. fold (resume_batch (resumes self) resps.*1) in H.
    destruct (upsert E s1 collection_name _) as [[[]|e] s2] eqn:Hu;
      injection H as <- <- <-.
    + by exists resps, s1, (Returned ()).
    + by exists resps, s1, (Raised e).
  - left. by destruct Hres as (-> & Hfail).
Qed.

(** [search]: a [TypeError] when the embedding of the job description
    failed; otherwise one [search] call with limit 30, whose exception
    propagates and whose hits are turned into the results. *)
Lemma search_run self s r s' t :
  search E py_str self s = (r, s', t) →
  ∃ resp s1,
    embed E s [jd self] "large" = (resp, s1) ∧
    match embedded resp with
    | None =>
        r = Raised unpack_error ∧ s' = s1 ∧
        t = EvEmbed [jd self] "large" resp :: embedding_log resp
    | Some q =>
        ∃ sresp,
          qsearch E s1 collection_name q 30 = (sresp, s') ∧
          t = [EvEmbed [jd self] "large" resp;
               EvSearch collection_name q 30 sresp] ∧
          r = match sresp with
              | Returned hits => Returned (search_loop py_str hits [])
              | Raised e => Raised e
              end
    end.
Proof.
  unfold search. intros H.
  destruct (get_embedding_run self (jd self) s) as (resp & s1 & He & Hg).
  exists resp, s1. split; [done|].
  apply bind_run in H as [(got & s1' & t1 & t2 & Hm & H & ->)|(e & Hm & ->)];
    rewrite Hg in Hm; [|done]. injection Hm as <- <- <-.
  destruct resp as [[|q vs]|e]; simpl in *.
  - apply bind_run in H
      as [(un & s2 & t3 & t4 & Hm & H & ->)|(e & Hm & ->)]; [done|].
    by injection Hm as <- <- <-.
  - apply bind_run in H
      as [(un & s2 & t3 & t4 & Hm & H & ->)|(e & Hm & ->)]; [|done].
    injection Hm as <- <- <-. simpl in H.
    apply perform_step in H
      as [(hits & s3 & t5 & Hq & H & ->)|(e & Hq & -> & ->)].
    + injection H as <- <- <-. by exists (Returned hits).
    + by exists (Raised e).
  - apply bind_run in H
      as [(un & s2 & t3 & t4 & Hm & H & ->)|(e' & Hm & ->)]; [done|].
    by injection Hm as <- <- <-.
Qed.

(** [update_qdrant] on a single resume. *)
Lemma update_qdrant_single self resume s r s' t :
  resumes self = [resume] →
  update_qdrant E self s = (r, s', t) →
  ∃ resp s1,
    embed E s [resume] "large" = (resp, s1) ∧
    match embedded resp with
    | None =>
        r = Raised unpack_error ∧ s' = s1 ∧
        t = EvEmbed [resume] "large" resp :: embedding_log resp
    | Some v =>
        ∃ uresp,
          upsert E s1 collection_name (resume_batch [resume] [v]) = (uresp, s') ∧
          r = Returned () ∧
          t = EvEmbed [resume] "large" resp
              :: EvUpsert collection_name (resume_batch [resume] [v]) uresp
              :: upsert_log uresp
    end.
Proof.
  unfold update_qdrant. intros -> H. cbn [update_loop] in H.
  destruct (get_embedding_run self resume s) as (resp & s1 & He & Hg).
  exists resp, s1. split; [done|].
  apply bind_run in H as [(f & s2 & t1 & t2 & Hm & H & ->)|(e & Hm & ->)].
  - apply bind_run in Hm
      as [(got & s3 & t3 & t4 & Hm & Hk & ->)|(e' & Hm & [=])].
    rewrite Hg in Hm. injection Hm as <- <- <-.
    apply bind_run in Hk
      as [(un & s4 & t5 & t6 & Hm & Hk & ->)|(e' & Hm & [=])].
    destruct resp as [[|v vs]|e]; try done. simpl in *.
    injection Hm as <- <- <-. injection Hk as <- <- <-.
    unfold try_catch, perform in H. fold (resume_batch [resume] [v]) in H.
    destruct (upsert E s1 collection_name _) as [[[]|e] s2'] eqn:Hu;
      injection H as <- <- <-.
    + by exists (Returned ()).
    + by exists (Raised e).
  - apply bind_run in Hm
      as [(got & s3 & t3 & t4 & Hm & Hk & ->)|(e' & Hm & [= <-])];
      rewrite Hg in Hm; [|done]. injection Hm as <- <- <-.
    apply bind_run in Hk
      as [(un & s4 & t5 & t6 & Hm & Hk & ->)|(e' & Hm & [= <-])].
    + destruct resp as [[|v vs]|e0]; try done. simpl in *.
      by injection Hm as <- <- <-.
    + destruct resp as [[|v vs]|e0]; try done; simpl in *;
        by injection Hm as <- <- <-.
Qed.

(** Every call of [get_similarity_score] is one of the runs of [run_of]. *)
Lemma get_similarity_score_run resume_string jd0 s r s' t :
  get_similarity_score E py_str config_path resume_string jd0 s = (r, s', t) →
  run_of E py_str config_path resume_string jd0 s r s' t.
Proof.
  unfold get_similarity_score. intros H.
  apply bind_run in H as [(? & s0 & t0 & t1 & Hm & H & ->)|(e & Hm & ->)];
    [|done]. injection Hm as <- <- <-.
  change ([EvLog ?l] ++ ?x) with (EvLog l :: x). fold (@started float).
  apply bind_run in H as [(self & s1 & ti & t2 & Hi & H & ->)|(e & Hi & ->)];
    [|by apply run_init_raises].
  pose proof (init_run _ _ _ _ _ _ Hi) as (_ & _ & Hself).
  destruct (Hself self eq_refl) as (Hres & Hjd & _).
  apply bind_run in H as [(? & s2 & tu & t3 & Hu & H & ->)|(e & Hu & ->)];
    apply (update_qdrant_single _ resume_string) in Hu
      as (resp & s2' & He & Hu); try done.
  2: { destruct (embedded resp) as [v|] eqn:Hv.
       - by destruct Hu as (? & _ & ? & _).
       - destruct Hu as ([= ->] & -> & ->). by eapply run_resume_unembedded. }
  destruct resp as [[|v vs]|?]; simpl in Hu; try by destruct Hu.
  destruct Hu as (uresp & Hup & _ & ->).
  apply bind_run in H as [(res & s3 & ts & t4 & Hs & H & ->)|(e & Hs & ->)];
    apply search_run in Hs as (resp & s3' & He2 & Hs); rewrite Hjd in *.
  - destruct resp as [[|q qs]|?]; simpl in Hs; try by destruct Hs.
    destruct Hs as ([hits|e] & Hq & -> & Hr); [|done]. injection Hr as ->.
    apply bind_run in H as [(? & s4 & tl & t5 & Hl & H & ->)|(e & Hl & ->)];
      [|done]. injection Hl as <- <-. injection H as <- <- <-. subst tl.
    cbn [app]. rewrite <- ?app_assoc. cbn [app]. fold (@finished float).
    eapply (run_returns E py_str config_path); eauto.
  - destruct (embedded resp) as [q|] eqn:Hq.
    + destruct Hs as ([hits|e'] & Hqs & -> & Hr); [done|]. injection Hr as ->.
      destruct resp as [[|q' qs]|?]; simplify_eq/=.
      rewrite <- ?app_assoc. cbn [app].
      eapply (run_search_raises E py_str config_path); eauto.
    + destruct Hs as ([= ->] & -> & ->).
      cbn [app]. rewrite <- ?app_assoc. cbn [app].
      eapply (run_jd_unembedded E py_str config_path); eauto.
Qed.

(** ** Reading the traces of runs *)

Lemma upsert_log_logs (resp : result unit) (ev : event float) :
  ev ∈ upsert_log resp → ∃ l, ev = EvLog l.
Proof.
  destruct resp as [[]|e]; simpl.
  - by intros ?%elem_of_nil.
  - intros ->%list_elem_of_singleton. by eexists.
Qed.

Lemma embedding_log_logs (resp : result (list (list float))) (ev : event float) :
  ev ∈ embedding_log resp → ∃ l, ev = EvLog l.
Proof.
  destruct resp as [[|??]|e]; simpl.
  - intros ->%list_elem_of_singleton. by eexists.
  - by intros ?%elem_of_nil.
  - intros ->%list_elem_of_singleton. by eexists.
Qed.

Lemma setup_event_in t (ev : event float) :
  Forall setup_event t → ev ∈ t → setup_event ev.
Proof. intros Hall Hin. by eapply Forall_forall in Hall. Qed.

Lemma upserts_app (t1 t2 : list (event float)) :
  upserts (t1 ++ t2) = upserts t1 ++ upserts t2.
Proof.
  induction t1 as [|[] t1 IH]; simpl; try done. by rewrite IH.
Qed.




(** Splits a membership in a trace along its conses and appends, and settles
    the pieces that are logs or set-up events. *)
Ltac in_trace H :=
  repeat first
    [ apply elem_of_nil in H; destruct H
    | apply elem_of_cons in H as [H|H]
    | apply elem_of_app in H as [H|H] ];
  try discriminate H;
  try (apply upsert_log_logs in H as [? H]; discriminate H);
  try (apply embedding_log_logs in H as [? H]; discriminate H);
  try (match goal with
       | Hs : Forall setup_event ?t0 |- _ =>
           apply (setup_event_in _ _ Hs) in H; destruct H
       end).

(** ** The claims *)

(** C3.  The list [get_similarity_score] returns has at most 30 entries:
    every search of a run is issued with limit 30, the list has exactly as
    many entries as the search returned hits, and so it has at most 30 when
    the vector store returned no more hits than the limit it was given. *)
Theorem result_length_at_most_30 resume_string jd0 s results s' t :
  get_similarity_score E py_str config_path resume_string jd0 s
  = (Returned results, s', t) →
  (∀ name q limit resp, EvSearch name q limit resp ∈ t → limit = 30) ∧
  (∃ q hits,
      EvSearch collection_name q 30 (Returned hits) ∈ t ∧
      length results = length hits) ∧
  ((∀ name q limit hits,
       EvSearch name q limit (Returned hits) ∈ t → (length hits ≤ limit)%nat) →
   (length results ≤ 30)%nat).
Proof.
  intros H%get_similarity_score_run. inversion H; subst; clear H.
  match goal with
  | Hi : QdrantSearch_init _ _ _ _ _ = _ |- _ =>
      apply init_run in Hi as (Hsetup & _ & _)
  end.
  assert (Hlen : length (search_loop py_str hits []) = length hits).
  { rewrite search_loop_spec. simpl. by rewrite length_map. }
  split; [|split].
  - intros name q' limit resp Hin. in_trace Hin. by injection Hin.
  - exists q, hits. split; [|done].
    apply elem_of_cons. right. apply elem_of_app. right.
    do 2 (apply elem_of_cons; right). apply elem_of_app. right.
    apply elem_of_cons. right. apply elem_of_cons. by left.
  - intros Hlimit. rewrite Hlen. apply (Hlimit collection_name q).
    apply elem_of_cons. right. apply elem_of_app. right.
    do 2 (apply elem_of_cons; right). apply elem_of_app. right.
    apply elem_of_cons. right. apply elem_of_cons. by left.
Qed.

(** The search event of a run that returned: it is in the trace. *)
Lemma search_event_in (t0 : list (event float)) a b ul c d tl :
  d ∈ started :: t0 ++ a :: b :: ul ++ [c; d; tl].
Proof.
  apply elem_of_cons. right. apply elem_of_app. right.
  do 2 (apply elem_of_cons; right). apply elem_of_app. right.
  apply elem_of_cons. right. apply elem_of_cons. by left.
Qed.

(** C5.  Every entry of the returned list pairs the first 30 characters of
    the rendering of a hit's payload with that hit's score, one entry per
    hit of the search and in the order of the hits. *)
Theorem results_pair_snippet_with_score resume_string jd0 s results s' t :
  get_similarity_score E py_str config_path resume_string jd0 s
  = (Returned results, s', t) →
  ∃ q hits,
    EvSearch collection_name q 30 (Returned hits) ∈ t ∧
    (∀ name q' limit resp,
        EvSearch name q' limit resp ∈ t → resp = Returned hits) ∧
    Forall2 (λ hit entry,
               first_chars 30 (py_str (hit_payload hit)) (text entry) ∧
               score entry = hit_score hit)
            hits results.
Proof.
  intros H%get_similarity_score_run. inversion H; subst; clear H.
  match goal with
  | Hi : QdrantSearch_init _ _ _ _ _ = _ |- _ =>
      apply init_run in Hi as (Hsetup & _ & _)
  end.
  exists q, hits. split; [apply search_event_in|]. split.
  - intros name q' limit resp Hin. in_trace Hin. by injection Hin.
  - rewrite search_loop_spec. simpl. clear.
    induction hits as [|hit rest IH]; constructor; [|done].
    split; [apply slice_to_first_chars|done].
Qed.

(** C7.  When the vector store returns its hits in descending order of score,
    the first entry of the returned list has a score at least as great as
    every later entry's. *)
Theorem first_score_is_greatest (float_ge : float → float → Prop)
    `{!Transitive float_ge} resume_string jd0 s results s' t :
  get_similarity_score E py_str config_path resume_string jd0 s
  = (Returned results, s', t) →
  (∀ name q limit hits,
      EvSearch name q limit (Returned hits) ∈ t →
      Sorted (λ a b, float_ge (hit_score a) (hit_score b)) hits) →
  match results with
  | [] => True
  | first :: rest => Forall (λ entry, float_ge (score first) (score entry)) rest
  end.
Proof.
  intros H%get_similarity_score_run Hdesc. inversion H; subst; clear H.
  specialize (Hdesc collection_name q 30 hits (search_event_in _ _ _ _ _ _ _)).
  apply Sorted_StronglySorted in Hdesc.
  2: { intros a b c Hab Hbc. by etrans. }
  rewrite search_loop_spec. simpl.
  destruct Hdesc as [|hit rest _ Hhd]; simpl; [done|].
  apply Forall_fmap. by eapply Forall_impl.
Qed.

(** C4, as the code has it.  The collection is created with the fixed size
    4096 and cosine distance, whatever the embedding collaborator returns;
    the size therefore equals the length of an embedding of the run exactly
    when that embedding has 4096 coordinates. *)
Theorem collection_size_is_4096 resume_string jd0 s r s' t :
  get_similarity_score E py_str config_path resume_string jd0 s = (r, s', t) →
  ∀ name size d resp,
    EvRecreate name size d resp ∈ t →
    name = collection_name ∧ size = 4096 ∧ d = COSINE ∧
    ∀ texts model vs v,
      EvEmbed texts model (Returned vs) ∈ t → v ∈ vs →
      (size = length v ↔ length v = 4096).
Proof.
  intros H%get_similarity_score_run name size d resp Hin.
  assert (Hrec : name = collection_name ∧ size = vector_size ∧ d = COSINE).
  { inversion H; subst; clear H;
      match goal with
      | Hi : QdrantSearch_init _ _ _ _ _ = _ |- _ =>
          apply init_run in Hi as (_ & Hrec & _)
      end;
      repeat first
        [ apply elem_of_nil in Hin; destruct Hin
        | apply elem_of_cons in Hin as [Hin|Hin]
        | apply elem_of_app in Hin as [Hin|Hin] ];
      try discriminate Hin;
      try (apply upsert_log_logs in Hin as [? Hin]; discriminate Hin);
      try (apply embedding_log_logs in Hin as [? Hin]; discriminate Hin);
      by eapply Hrec. }
  destruct Hrec as (-> & -> & ->).
  split; [done|]. split; [done|]. split; [done|].
  intros texts model vs v _ _. by unfold vector_size.
Qed.


Lemma embed_events_lookup rs (resps : list (list float * list (list float)))
    i resume :
  length resps = length rs →
  rs !! i = Some resume →
  ∃ v vs,
    embed_events rs resps !! i
    = Some (EvEmbed [resume] "large" (Returned (v :: vs))) ∧
    resps.*1 !! i = Some v.
Proof.
  intros Hlen Hi.
  destruct (lookup_lt_is_Some_2 resps i) as [[v vs] Hp].
  { rewrite Hlen. by eapply lookup_lt_Some. }
  exists v, vs. unfold embed_events. split.
  - rewrite lookup_zip_with, Hi. simpl. by rewrite Hp.
  - by rewrite list_lookup_fmap, Hp.
Qed.

Lemma embed_events_embed rs (resps : list (list float * list (list float))) :
  Forall embedding_event (embed_events rs resps).
Proof.
  unfold embed_events. revert resps.
  induction rs as [|r rs IH]; intros [|p resps]; simpl;
    constructor; [done|apply IH].
Qed.

(** C6.  For every list of resumes, the batch [update_qdrant] upserts has the
    identifiers 0, 1, ... in the order of the resumes, and under each index
    the embedding the collaborator returned for that resume (the call number
    [i] of the run) and a payload with the text of that resume; and the
    upsert is issued whenever every embedding call was answered. *)
Theorem update_qdrant_batch self s r s' t :
  update_qdrant E self s = (r, s', t) →
  (∀ name points resp,
      EvUpsert name points resp ∈ t →
      name = collection_name ∧
      ids points = seq 0 (length (resumes self)) ∧
      length (vectors points) = length (resumes self) ∧
      length (payloads points) = length (resumes self) ∧
      ∀ i resume,
        resumes self !! i = Some resume →
        ids points !! i = Some i ∧
        payloads points !! i = Some {[ "text" := resume ]} ∧
        ∃ v vs,
          t !! i = Some (EvEmbed [resume] "large" (Returned (v :: vs))) ∧
          vectors points !! i = Some v) ∧
  (Forall answered t →
   ∃ points resp, EvUpsert collection_name points resp ∈ t).
Proof.
  intros [(-> & Hall & texts & model & resp & Hin & Hnone)
         |(resps & s1 & uresp & -> & Hlen & Hup & ->)]%update_qdrant_run.
  - split.
    + intros name points resp' Hup.
      by apply (Forall_forall (@embedding_event float) t) with (x := EvUpsert name points resp') in Hall.
    + intros Hans. eapply Forall_forall in Hans; [|exact Hin].
      simpl in Hans. rewrite Hnone in Hans. by destruct Hans.
  - split.
    + intros name points resp [Hin|Hin]%elem_of_app.
      { pose proof (embed_events_embed (resumes self) resps) as Hall.
        by eapply Forall_forall in Hall; [|exact Hin]. }
      apply elem_of_cons in Hin as [Hin|Hin];
        [|by apply upsert_log_logs in Hin as [? ?]].
      injection Hin as -> -> ->. simpl.
      split; [done|]. split; [done|].
      split; [by rewrite length_fmap|]. split; [by rewrite length_map|].
      intros i resume Hi. split; [|split].
      * apply lookup_seq. split; [done|]. by eapply lookup_lt_Some.
      * change (map ?f ?l) with (f <$> l). by rewrite list_lookup_fmap, Hi.
      * destruct (embed_events_lookup _ _ _ _ Hlen Hi) as (v & vs & Hev & Hv).
        exists v, vs. split; [|done]. by apply lookup_app_l_Some.
    + intros _. eexists _, _. apply elem_of_app. right.
      apply elem_of_cons. by left.
Qed.

Lemma bind_returned {A B} (m : M float S A) (k : A → M float S B) s a s1 t1 :
  m s = (Returned a, s1, t1) →
  bind m k s = match k a s1 with (r, s2, t2) => (r, s2, t1 ++ t2) end.
Proof. unfold bind. by intros ->. Qed.

Lemma bind_raised {A B} (m : M float S A) (k : A → M float S B) s e s1 t1 :
  m s = (Raised e, s1, t1) → bind m k s = (Raised e, s1, t1).
Proof. unfold bind. by intros ->. Qed.

(** C2, as the code has it.  When the configuration file cannot be loaded
    (it is missing, it is not YAML, or anything else goes wrong reading it),
    no configuration error is raised: [read_config] logs one error on the
    module logger and returns [None]; and in a call of
    [get_similarity_score] the failed load and this error line come right
    after the start line. *)
Theorem unusable_configuration_is_logged resume_string jd0 s e s1 :
  load_yaml E s (config_path +:+ "/config.yml") = (Raised e, s1) →
  ∃ msg info,
    read_config E (config_path +:+ "/config.yml") s
    = (Returned YNull, s1,
       [EvLoadYaml (config_path +:+ "/config.yml") (Raised e);
        EvLog (LogRecord ModuleLogger ERROR msg info)]) ∧
    ∃ r s' rest,
      get_similarity_score E py_str config_path resume_string jd0 s
      = (r, s',
         started
         :: EvLoadYaml (config_path +:+ "/config.yml") (Raised e)
         :: EvLog (LogRecord ModuleLogger ERROR msg info) :: rest).
Proof.
  intros Hload.
  destruct (read_config_run (config_path +:+ "/config.yml") s)
    as (resp & s1' & logs & Hl & Hrc & Hlogs).
  rewrite Hload in Hl. injection Hl as <- <-.
  destruct Hlogs as (msg & info & ->). exists msg, info.
  split; [exact Hrc|].
  eexists _, _, _. unfold get_similarity_score.
  erewrite bind_returned by reflexivity.
  erewrite bind_raised; [reflexivity|].
  unfold QdrantSearch_init.
  erewrite bind_returned by exact Hrc.
  by erewrite bind_raised by reflexivity.
Qed.


(** ** With a vector store that keeps its contract *)

Section Store.

Context (contents : S → string → list (nat * payload)).
Context (Hstore : store_contract E contents).

(** After [__init__] the collection is empty. *)
Lemma init_wipes resumes0 jd0 s self s1 t0 :
  QdrantSearch_init E config_path resumes0 jd0 s = (Returned self, s1, t0) →
  contents s1 collection_name = [].
Proof.
  intros (_ & _ & Hself)%init_run.
  destruct (Hself self eq_refl) as (_ & _ & t0' & s0 & b & _ & Hrec).
  by eapply recreate_wipes.
Qed.

(** After the upsert the collection holds at most the batch. *)
Lemma upsert_into_empty s points r s' p :
  contents s collection_name = [] →
  upsert E s collection_name points = (r, s') →
  p ∈ contents s' collection_name → p ∈ batch_points points.
Proof.
  intros Hempty Hup Hin.
  destruct (upsert_adds _ _ Hstore _ _ _ _ _ _ Hup Hin) as [Hold|Hnew];
    [|done].
  rewrite Hempty in Hold. by apply elem_of_nil in Hold.
Qed.

(** C9.  A [QdrantSearch] constructed with an empty list of resumes:
    [update_qdrant] asks for no embedding, calls [upsert] with the empty
    batch and returns, whatever [upsert] answers; and the search that
    follows returns the empty list, without an exception, when its
    embedding call and its search call are answered. *)
Theorem empty_resume_list jd0 s0 self s1 t0 :
  QdrantSearch_init E config_path [] jd0 s0 = (Returned self, s1, t0) →
  ∃ uresp s2,
    update_qdrant E self s1
    = (Returned (), s2,
       EvUpsert collection_name (MkBatch [] [] []) uresp :: upsert_log uresp) ∧
    ∀ r s3 t2,
      search E py_str self s2 = (r, s3, t2) →
      Forall answered t2 →
      r = Returned [].
Proof.
  intros Hinit. pose proof (init_wipes _ _ _ _ _ _ Hinit) as Hempty.
  apply init_run in Hinit as (_ & _ & Hself).
  destruct (Hself self eq_refl) as (Hres & _ & _). clear Hself.
  destruct (upsert E s1 collection_name (MkBatch [] [] [])) as [uresp s2] eqn:Hup.
  exists uresp, s2. split.
  - unfold update_qdrant. rewrite Hres. cbn [update_loop].
    erewrite bind_returned by reflexivity.
    unfold try_catch, perform. cbn [map]. rewrite Hup.
    by destruct uresp as [[]|e].
  - assert (Hempty2 : contents s2 collection_name = []).
    { apply elem_of_nil_inv. intros p Hp.
      eapply upsert_into_empty in Hp; [|done..].
      by apply elem_of_nil in Hp. }
    intros r s3 t2 (resp & s2' & He & Hs)%search_run Hans.
    destruct (embedded resp) as [q|] eqn:Hq.
    + destruct Hs as (sresp & Hqs & -> & ->).
      apply Forall_cons in Hans as [_ Hans].
      apply Forall_cons in Hans as [[hits ->] _].
      destruct hits as [|hit hits]; [done|].
      destruct (search_reads _ _ Hstore _ _ _ _ _ _ hit Hqs)
        as (pl & _ & Hin); [apply elem_of_cons; by left|].
      rewrite (embed_keeps _ _ Hstore _ _ _ _ _ He), Hempty2 in Hin.
      by apply elem_of_nil in Hin.
    + destruct Hs as (_ & _ & ->).
      apply Forall_cons in Hans as [Hans _]. simpl in Hans.
      rewrite Hq in Hans. by destruct Hans.
Qed.

Lemma setup_not_accessed (ev : event float) :
  setup_event ev → accessed ev = None.
Proof. by destruct ev. Qed.

(** In a trace whose accesses all come after an event [rec], an access at
    position [i] has [rec] before it. *)
Lemma access_after (pre post : list (event float)) rec i ev name :
  Forall setup_event pre → setup_event rec →
  (pre ++ rec :: post) !! i = Some ev →
  accessed ev = Some name →
  length pre < i ∧ (pre ++ rec :: post) !! length pre = Some rec.
Proof.
  intros Hpre Hrec Hi Hacc. split; [|by apply list_lookup_middle].
  destruct (decide (i < length pre)) as [Hlt|Hge].
  - rewrite lookup_app_l in Hi by done.
    apply list_elem_of_lookup_2 in Hi.
    apply (setup_event_in _ _ Hpre), setup_not_accessed in Hi. congruence.
  - destruct (decide (i = length pre)) as [->|Hne]; [|lia].
    rewrite list_lookup_middle in Hi by done. injection Hi as <-.
    apply setup_not_accessed in Hrec. congruence.
Qed.

(** The accesses of a run are to the one collection. *)
Lemma run_accesses resume_string jd0 s r s' t ev name :
  run_of E py_str config_path resume_string jd0 s r s' t →
  ev ∈ t → accessed ev = Some name → name = collection_name.
Proof.
  intros H Hin Hacc.
  inversion H; subst; clear H;
    match goal with
    | Hi : QdrantSearch_init _ _ _ _ _ = _ |- _ =>
        apply init_run in Hi as (Hsetup & _ & _)
    end;
    repeat first
      [ apply elem_of_nil in Hin; destruct Hin
      | apply elem_of_cons in Hin as [Hin|Hin]
      | apply elem_of_app in Hin as [Hin|Hin] ];
    try (apply upsert_log_logs in Hin as [? ->]);
    try (apply embedding_log_logs in Hin as [? ->]);
    try (apply (setup_event_in _ _ Hsetup), setup_not_accessed in Hin);
    subst; simpl in *; congruence.
Qed.

(** C8.  In every call of [get_similarity_score], an [upsert] or a [search]
    comes after a [recreate_collection] of the collection it is issued
    against that returned; and, the store keeping its contract, whatever it
    held before the call, every hit the call's search receives is the point
    the call itself upserted: identifier 0 with the resume as payload. *)
Theorem collection_recreated_before_use resume_string jd0 s r s' t :
  get_similarity_score E py_str config_path resume_string jd0 s = (r, s', t) →
  (∀ i ev name,
      t !! i = Some ev → accessed ev = Some name →
      ∃ j b size d,
        j < i ∧ t !! j = Some (EvRecreate name size d (Returned b))) ∧
  (∀ name q limit hits hit,
      EvSearch name q limit (Returned hits) ∈ t → hit ∈ hits →
      hit_id hit = 0 ∧ hit_payload hit = Some {[ "text" := resume_string ]}).
Proof.
  intros H%get_similarity_score_run. split.
  - intros i ev name Hi Hacc.
    assert (Hin : ev ∈ t) by by eapply list_elem_of_lookup_2.
    assert (name = collection_name) as -> by by eapply run_accesses.
    inversion H; subst; clear H;
      match goal with
      | Hi : QdrantSearch_init _ _ _ _ _ = _ |- _ =>
          apply init_run in Hi as (Hsetup & _ & Hself)
      end.
    { apply elem_of_cons in Hin as [->|Hin]; [done|].
      apply (setup_event_in _ _ Hsetup), setup_not_accessed in Hin.
      congruence. }
    all: destruct (Hself self eq_refl) as (_ & _ & t0' & s0 & b & -> & _).
    all: rewrite <- app_assoc in Hi; cbn [app] in Hi.
    all: rewrite app_comm_cons in Hi.
    all: apply Forall_app in Hsetup as [Hpre _].
    all: eapply access_after in Hi as [Hlt Hrec];
      [|by constructor|done|done].
    all: exists (length (started :: t0')), b, vector_size, COSINE.
    all: split; [done|].
    all: rewrite <- app_assoc; cbn [app]; by rewrite app_comm_cons.
  - intros name q' limit hits' hit Hin Hhit.
    inversion H; subst; clear H;
      match goal with
      | Hi : QdrantSearch_init _ _ _ _ _ = _ |- _ =>
          pose proof (init_run _ _ _ _ _ _ Hi) as (Hsetup & _ & _)
      end;
      in_trace Hin.
    injection Hin as -> -> -> ->.
    match goal with
    | Hi : QdrantSearch_init _ _ _ _ _ = _ |- _ =>
        apply init_wipes in Hi as Hempty
    end.
    match goal with
    | Hq : qsearch _ _ _ _ _ = _ |- _ =>
        destruct (search_reads _ _ Hstore _ _ _ _ _ _ hit Hq Hhit)
          as (pl & Hpl & Hcont)
    end.
    match goal with
    | He : embed _ ?s3 [jd0] _ = _ |- _ =>
        rewrite (embed_keeps _ _ Hstore _ _ _ _ _ He) in Hcont
    end.
    eapply upsert_into_empty in Hcont; [| |done].
    2: { match goal with
         | He : embed _ ?s1 [resume_string] _ = _ |- _ =>
             by rewrite (embed_keeps _ _ Hstore _ _ _ _ _ He)
         end. }
    apply list_elem_of_singleton in Hcont. injection Hcont as Hid ->.
    by rewrite Hpl, Hid.
Qed.

End Store.

End Properties.

(** * The stand-in keeps the contract, and the script run on it *)

Lemma stub_contract cfg emb :
  store_contract (stub_env cfg emb) stub_contents.
Proof.
  split.
  - intros s name size d b s' [= _ <-]. unfold stub_contents.
    by rewrite lookup_insert_eq.
  - intros s name points r s' p. unfold stub_contents. simpl.
    destruct (s !! name) as [old|] eqn:Hold; intros [= <- <-].
    + rewrite lookup_insert_eq. simpl. unfold stub_overwrite.
      rewrite fmap_app. intros [Hin|Hin]%elem_of_app.
      * left. apply list_elem_of_fmap in Hin as (x & -> & Hx).
        apply list_elem_of_filter in Hx as [_ Hx].
        apply list_elem_of_fmap. by exists x.
      * right. apply list_elem_of_fmap in Hin as ([x v] & -> & Hx).
        by apply elem_of_zip_l in Hx.
    + rewrite Hold. by left.
  - by intros s texts model r s' [= _ <-].
  - intros s name query limit hits s' hit. unfold stub_contents. simpl.
    destruct (s !! name) as [pts|] eqn:Hpts; intros [= <- <-].
    intros (i & Hi & _)%elem_of_take. apply list_elem_of_lookup_2 in Hi.
    rewrite merge_sort_Permutation in Hi.
    apply list_elem_of_fmap in Hi as ([[id pl] v] & -> & Hp).
    exists pl. split; [done|]. simpl.
    apply list_elem_of_fmap. by exists (id, pl, v).
Qed.

(** Goes through a membership in an explicit trace, dropping the events of
    another kind. *)
Ltac pick_event H :=
  repeat (apply elem_of_cons in H as [H|H]; [try discriminate H|]);
  try (by apply elem_of_nil in H).

Lemma stub_run_eq E :
  stub_run E = ((stub_run E).1.1, (stub_run E).1.2, (stub_run E).2).
Proof. by destruct (stub_run E) as [[??]?]. Qed.

Lemma stub_many_returns :
  get_similarity_score stub_many stub_str "/srv" stub_resume stub_jd stub_stale
  = (Returned (value_of [] (stub_run stub_many).1.1),
     (stub_run stub_many).1.2, (stub_run stub_many).2).
Proof. vm_cast_no_check (eq_refl (stub_run stub_many)). Qed.

Lemma result_length_at_most_30_witness :
  (length (value_of [] (stub_run stub_many).1.1) ≤ 30)%nat.
Proof.
  apply (result_length_at_most_30 _ _ _ _ _ _ _ _ _ stub_many_returns).
  intros name q limit hits Hin. vm_compute in Hin. pick_event Hin.
  simplify_eq. simpl. lia.
Defined.

Lemma stub_accented_returns :
  get_similarity_score stub_accented stub_str "/srv" stub_resume stub_jd
                       stub_stale
  = (Returned (value_of [] (stub_run stub_accented).1.1),
     (stub_run stub_accented).1.2, (stub_run stub_accented).2).
Proof. vm_cast_no_check (eq_refl (stub_run stub_accented)). Qed.

Lemma results_pair_snippet_with_score_witness :
  (∃ q hits,
     EvSearch collection_name q 30 (Returned hits) ∈ (stub_run stub_accented).2 ∧
     (∀ name q' limit resp,
         EvSearch name q' limit resp ∈ (stub_run stub_accented).2 →
         resp = Returned hits) ∧
     Forall2 (λ hit entry,
                first_chars 30 (stub_str (hit_payload hit)) (text entry) ∧
                score entry = hit_score hit)
             hits (value_of [] (stub_run stub_accented).1.1)) ∧
  text <$> value_of [] (stub_run stub_accented).1.1
  = ["{'text': 'éééééééééééééééééééé"; "{'text': 'plain'}"].
Proof.
  split.
  - exact (results_pair_snippet_with_score _ _ _ _ _ _ _ _ _
             stub_accented_returns).
  - vm_cast_no_check
      (eq_refl (text <$> value_of [] (stub_run stub_accented).1.1)).
Defined.

Lemma first_score_is_greatest_witness :
  match value_of [] (stub_run stub_many).1.1 with
  | [] => True
  | first :: rest => Forall (λ entry, (score entry ≤ score first)%Z) rest
  end.
Proof.
  assert (Htrans : Transitive (λ a b : Z, (b ≤ a)%Z)).
  { intros a b c Hab Hbc. lia. }
  apply (first_score_is_greatest stub_many stub_str "/srv"
           (λ a b : Z, (b ≤ a)%Z) _ _ _ _ _ _ stub_many_returns).
  intros name q limit hits Hin. vm_compute in Hin. pick_event Hin.
  simplify_eq. repeat constructor; simpl; lia.
Defined.

Lemma collection_size_is_4096_witness :
  ∃ name size d resp,
    EvRecreate name size d resp ∈ (stub_run stub_ok).2 ∧ size = 4096.
Proof.
  assert (Hin : EvRecreate collection_name vector_size COSINE (Returned true)
                  ∈ (stub_run stub_ok).2).
  { apply (list_elem_of_lookup_2 _ 4).
    vm_cast_no_check (eq_refl ((stub_run stub_ok).2 !! 4)). }
  exists collection_name, vector_size, COSINE, (Returned true).
  split; [exact Hin|].
  exact (proj1 (proj2 (collection_size_is_4096 _ _ _ _ _ _ _ _ _
                         (stub_run_eq stub_ok) _ _ _ _ Hin))).
Defined.


Lemma stub_update_eq :
  update_qdrant stub_ok (stub_self ["alpha"; "beta gamma"; "delta"])
                (<[collection_name := []]> stub_stale)
  = ((stub_update ["alpha"; "beta gamma"; "delta"]).1.1,
     (stub_update ["alpha"; "beta gamma"; "delta"]).1.2,
     (stub_update ["alpha"; "beta gamma"; "delta"]).2).
Proof. unfold stub_update. by destruct (update_qdrant _ _ _) as [[??]?]. Qed.

Lemma update_qdrant_batch_witness :
  ∃ points resp,
    EvUpsert collection_name points resp
      ∈ (stub_update ["alpha"; "beta gamma"; "delta"]).2 ∧
    ids points = [0; 1; 2].
Proof.
  destruct (update_qdrant_batch _ _ _ _ _ _ stub_update_eq)
    as [Hshape Hissued].
  destruct Hissued as (points & resp & Hin).
  { apply Forall_forall. intros ev Hin. vm_compute in Hin.
    repeat (apply elem_of_cons in Hin as [->|Hin]; [simpl; by eauto|]).
    by apply elem_of_nil in Hin. }
  exists points, resp. split; [exact Hin|].
  by destruct (Hshape _ _ _ Hin) as (_ & Hids & _).
Defined.

Lemma unusable_configuration_is_logged_witness :
  ∃ msg info,
    read_config stub_unconfigured "/srv/config.yml" stub_stale
    = (Returned YNull, stub_stale,
       [EvLoadYaml "/srv/config.yml"
          (Raised (Exn FileNotFoundError "No such file or directory"));
        EvLog (LogRecord ModuleLogger ERROR msg info)]) ∧
    ∃ r s' rest,
      get_similarity_score stub_unconfigured stub_str "/srv" stub_resume
                           stub_jd stub_stale
      = (r, s',
         started
         :: EvLoadYaml "/srv/config.yml"
              (Raised (Exn FileNotFoundError "No such file or directory"))
         :: EvLog (LogRecord ModuleLogger ERROR msg info) :: rest).
Proof.
  apply (unusable_configuration_is_logged stub_unconfigured stub_str
           "/srv" stub_resume stub_jd stub_stale).
  reflexivity.
Defined.

Lemma stub_init_empty :
  QdrantSearch_init stub_ok "/srv" [] stub_jd stub_stale
  = (Returned (stub_self []), <[collection_name := []]> stub_stale,
     (QdrantSearch_init stub_ok "/srv" [] stub_jd stub_stale).2).
Proof.
  vm_cast_no_check (eq_refl (QdrantSearch_init stub_ok "/srv" [] stub_jd stub_stale)).
Qed.

Lemma empty_resume_list_witness :
  ∃ uresp s2,
    update_qdrant stub_ok (stub_self []) (<[collection_name := []]> stub_stale)
    = (Returned (), s2,
       EvUpsert collection_name (MkBatch [] [] []) uresp :: upsert_log uresp) ∧
    ∀ r s3 t2,
      search stub_ok stub_str (stub_self []) s2 = (r, s3, t2) →
      Forall answered t2 →
      r = Returned [].
Proof.
  exact (empty_resume_list stub_ok stub_str "/srv" stub_contents
           (stub_contract _ _) _ _ _ _ _ stub_init_empty).
Defined.

Lemma collection_recreated_before_use_witness :
  (∀ i ev name,
      (stub_run stub_ok).2 !! i = Some ev → accessed ev = Some name →
      ∃ j b size d,
        j < i ∧
        (stub_run stub_ok).2 !! j = Some (EvRecreate name size d (Returned b))) ∧
  (∀ name q limit hits hit,
      EvSearch name q limit (Returned hits) ∈ (stub_run stub_ok).2 →
      hit ∈ hits →
      hit_id hit = 0 ∧ hit_payload hit = Some {[ "text" := stub_resume ]}).
Proof.
  exact (collection_recreated_before_use stub_ok stub_str "/srv" stub_contents
           (stub_contract _ _) _ _ _ _ _ _ (stub_run_eq stub_ok)).
Defined.

(** * Where the code departs from the claims *)

(** C2, as stated, fails: without a configuration file the call does not
    end in a configuration error. *)
Lemma missing_configuration_is_not_reported :
  load_yaml stub_unconfigured stub_stale "/srv/config.yml"
  = (Raised (Exn FileNotFoundError "No such file or directory"), stub_stale) ∧
  ¬ fails_with_configuration_error (stub_run stub_unconfigured).1.1.
Proof.
  split; [reflexivity|].
  intros (e & He & Hclass).
  assert (Hrun : (stub_run stub_unconfigured).1.1
                 = Raised (Exn TypeError "'NoneType' object is not subscriptable")).
  { vm_cast_no_check
      (eq_refl (stub_run stub_unconfigured).1.1). }
  rewrite Hrun in He. injection He as <-. by destruct Hclass.
Qed.

(** C4, as stated, fails: with embeddings of three coordinates the
    collection is still created for 4096. *)
Lemma collection_not_sized_to_embeddings :
  ¬ collection_sized_to_embeddings (stub_run stub_ok).2.
Proof.
  intros Hsized.
  specialize (Hsized collection_name vector_size COSINE (Returned true)
                [stub_resume] "large" [[42; 42; 42]%Z] [42; 42; 42]%Z).
  assert (Hlen : vector_size = 3); [|done].
  apply Hsized.
  - apply (list_elem_of_lookup_2 _ 4).
    vm_cast_no_check (eq_refl ((stub_run stub_ok).2 !! 4)).
  - apply (list_elem_of_lookup_2 _ 5).
    vm_cast_no_check (eq_refl ((stub_run stub_ok).2 !! 5)).
  - apply elem_of_cons. by left.
Qed.

(** C1 does not hold of the code.  With the embedding service down, the
    error is logged by [get_embedding], but unpacking the [None] it returns
    raises a [TypeError] that reaches the caller; with the search call
    failing, its exception reaches the caller as it is.  Only a failing
    upsert is logged and swallowed: the call then returns a list. *)
Theorem collaborator_failures_reach_caller :
  (stub_run stub_embed_down).1.1 = Raised unpack_error ∧
  (stub_run stub_search_down).1.1
  = Raised (Exn OtherException "search timed out") ∧
  (stub_run stub_upsert_down).1.1 = Returned [] ∧
  EvLog (LogRecord ClassLogger ERROR
           "Error upserting the vectors to the qdrant collection: upsert timed out"
           true)
    ∈ (stub_run stub_upsert_down).2.
Proof.
  split; [vm_cast_no_check (eq_refl (stub_run stub_embed_down).1.1)|].
  split; [vm_cast_no_check (eq_refl (stub_run stub_search_down).1.1)|].
  split; [vm_cast_no_check (eq_refl (stub_run stub_upsert_down).1.1)|].
  apply (list_elem_of_lookup_2 _ 7).
  vm_cast_no_check (eq_refl ((stub_run stub_upsert_down).2 !! 7)).
Qed.

Local Open Scope nat_scope.

(** * [find_path] *)

Section FindPathProperties.

Context (listdir : list string → result (list string)).
Context (cwd : list string) (folder_name : string).

(** One round of the loop, in the ancestor of [cwd] that is [j] names deep. *)
Lemma find_loop_round fuel j :
  j ≤ length cwd →
  find_loop listdir (Datatypes.S fuel) folder_name (take j cwd)
  = match listdir (take j cwd) with
    | Raised e => Some (ListingRaised e)
    | Returned names =>
        if bool_decide (folder_name ∈ names)
        then Some (Found (take j cwd ++ [folder_name]))
        else if bool_decide (j ≤ 1)
             then Some (NotFound (not_found_message folder_name))
             else find_loop listdir fuel folder_name (take (j - 1) cwd)
    end.
Proof.
  intros Hj. cbn [find_loop].
  destruct (listdir (take j cwd)) as [names|e]; [|done].
  destruct (bool_decide (folder_name ∈ names)); [done|].
  assert (Hparent : dirname (take j cwd) = take (j - 1) cwd).
  { unfold dirname. rewrite length_take, take_take. f_equal. lia. }
  rewrite Hparent.
  destruct (decide (j ≤ 1)) as [Hle|Hgt].
  - rewrite (bool_decide_eq_true_2 (j ≤ 1)) by done.
    rewrite bool_decide_eq_true_2; [done|].
    replace (j - 1) with 0 by lia. done.
  - rewrite (bool_decide_eq_false_2 (j ≤ 1)) by done.
    rewrite bool_decide_eq_false_2; [done|].
    intros Hnil. apply (f_equal length) in Hnil.
    rewrite length_take in Hnil. simpl in Hnil. lia.
Qed.

(** With as many rounds as the directory is deep (one in "/"), the loop
    ends, and with the same outcome for any larger number. *)
Lemma find_loop_enough j fuel :
  j ≤ length cwd → Nat.max 1 j ≤ fuel →
  ∃ o, find_loop listdir fuel folder_name (take j cwd) = Some o ∧
       ∀ fuel', Nat.max 1 j ≤ fuel' →
         find_loop listdir fuel' folder_name (take j cwd) = Some o.
Proof.
  revert fuel.
  { induction j as [|j IH]; intros fuel Hj Hfuel.
    - destruct fuel as [|fuel]; [lia|].
      rewrite find_loop_round by lia.
      destruct (listdir (take 0 cwd)) as [names|e] eqn:Hl.
      + destruct (bool_decide (folder_name ∈ names)) eqn:Hin;
          eexists; (split; [done|]); intros [|fuel'] ?; try lia;
          rewrite find_loop_round, Hl, Hin by lia; done.
      + eexists; split; [done|]. intros [|fuel'] ?; [lia|].
        by rewrite find_loop_round, Hl by lia.
    - destruct fuel as [|fuel]; [lia|].
      rewrite find_loop_round by lia.
      destruct (listdir (take (Datatypes.S j) cwd)) as [names|e] eqn:Hl.
      + destruct (bool_decide (folder_name ∈ names)) eqn:Hin.
        { eexists; split; [done|]. intros [|fuel'] ?; [lia|].
          by rewrite find_loop_round, Hl, Hin by lia. }
        destruct (bool_decide (Datatypes.S j ≤ 1)) eqn:Hone.
        { eexists; split; [done|]. intros [|fuel'] ?; [lia|].
          by rewrite find_loop_round, Hl, Hin, Hone by lia. }
        apply bool_decide_eq_false in Hone.
        replace (Datatypes.S j - 1) with j by lia.
        destruct (IH fuel) as (o & Ho & Hmore); [lia..|].
        exists o. split; [done|]. intros [|fuel'] ?; [lia|].
        rewrite find_loop_round, Hl, Hin by lia.
        rewrite bool_decide_eq_false_2 by done.
        replace (Datatypes.S j - 1) with j by lia. apply Hmore. lia.
      + eexists; split; [done|]. intros [|fuel'] ?; [lia|].
        by rewrite find_loop_round, Hl by lia. }
Qed.

Lemma find_path_is_some : is_Some (find_path listdir cwd folder_name).
Proof.
  unfold find_path.
  destruct (find_loop_enough (length cwd) (Datatypes.S (length cwd)))
    as (o & Ho & _); [lia..|].
  rewrite firstn_all in Ho. by rewrite Ho.
Qed.

(** X10.  The loop of [find_path] ends, whatever the file system holds:
    started in a directory [n] names deep it is over after at most [n]
    rounds (one round in "/"), and more rounds change nothing. *)
Theorem find_path_terminates :
  is_Some (find_path listdir cwd folder_name) ∧
  ∀ fuel, Nat.max 1 (length cwd) ≤ fuel →
    find_loop listdir fuel folder_name cwd = find_path listdir cwd folder_name.
Proof.
  split; [apply find_path_is_some|].
  unfold find_path.
  destruct (find_loop_enough (length cwd) (Datatypes.S (length cwd)))
    as (o & Ho & Hmore); [lia..|].
  rewrite firstn_all in Ho, Hmore.
  intros fuel Hfuel. by rewrite Ho, Hmore.
Qed.

(** Where the loop, started [j] names deep, ends. *)
Lemma find_loop_outcome j : ∀ fuel o,
  j ≤ length cwd →
  find_loop listdir fuel folder_name (take j cwd) = Some o →
  ∃ k, k ≤ j ∧ (1 ≤ k ∨ j = 0) ∧ passed listdir cwd folder_name k j ∧
    match o with
    | Found p =>
        p = take k cwd ++ [folder_name] ∧
        ∃ names, listdir (take k cwd) = Returned names ∧ folder_name ∈ names
    | NotFound message =>
        message = (not_found_message folder_name) ∧ k ≤ 1 ∧
        ∃ names, listdir (take k cwd) = Returned names ∧ folder_name ∉ names
    | ListingRaised e => listdir (take k cwd) = Raised e
    end.
Proof.
  induction j as [|j IH]; intros [|fuel] o Hj Hrun; try done;
    rewrite find_loop_round in Hrun by done.
  - exists 0. split; [done|]. split; [by right|].
    split; [intros i ?; lia|].
    destruct (listdir (take 0 cwd)) as [names|e]; [|by injection Hrun as <-].
    destruct (bool_decide (folder_name ∈ names)) eqn:Hin;
      injection Hrun as <-.
    + apply bool_decide_eq_true in Hin. split; [done|]. by exists names.
    + apply bool_decide_eq_false in Hin. split; [done|]. split; [lia|].
      by exists names.
  - destruct (listdir (take (Datatypes.S j) cwd)) as [names|e] eqn:Hl.
    2: { injection Hrun as <-. exists (Datatypes.S j).
         split; [done|]. split; [left; lia|]. split; [intros i ?; lia|done]. }
    destruct (bool_decide (folder_name ∈ names)) eqn:Hin.
    { injection Hrun as <-. apply bool_decide_eq_true in Hin.
      exists (Datatypes.S j). split; [done|]. split; [left; lia|].
      split; [intros i ?; lia|]. split; [done|]. by exists names. }
    apply bool_decide_eq_false in Hin.
    destruct (bool_decide (Datatypes.S j ≤ 1)) eqn:Hone.
    { injection Hrun as <-. apply bool_decide_eq_true in Hone.
      exists (Datatypes.S j). split; [done|]. split; [left; lia|].
      split; [intros i ?; lia|]. split; [done|]. split; [done|].
      by exists names. }
    apply bool_decide_eq_false in Hone.
    replace (Datatypes.S j - 1) with j in Hrun by lia.
    apply IH in Hrun as (k & Hk & Hroot & Hpassed & Ho); [|lia].
    exists k. split; [lia|]. split; [destruct Hroot; [by left|lia]|].
    split; [|done].
    intros i Hi. destruct (decide (i = Datatypes.S j)) as [->|Hne].
    + by exists names.
    + apply Hpassed. lia.
Qed.

(** X11.  When [find_path] returns a path, it is the folder inside the
    working directory or one of its ancestors, that directory lists the
    folder, and no directory between it and the working directory does: the
    nearest one wins.  The directory is never "/" unless the working
    directory is "/" itself. *)
Theorem find_path_nearest p :
  find_path listdir cwd folder_name = Some (Found p) →
  ∃ k names,
    k ≤ length cwd ∧ (1 ≤ k ∨ cwd = []) ∧
    p = take k cwd ++ [folder_name] ∧
    listdir (take k cwd) = Returned names ∧ folder_name ∈ names ∧
    ∀ i, k < i ≤ length cwd →
      ∃ names', listdir (take i cwd) = Returned names' ∧ folder_name ∉ names'.
Proof.
  unfold find_path. intros Hrun. rewrite <- (firstn_all cwd) in Hrun at 2.
  apply find_loop_outcome in Hrun
    as (k & Hk & Hroot & Hpassed & -> & names & Hl & Hin); [|done].
  exists k, names. split; [done|]. split; [|done].
  destruct Hroot as [?|Hzero]; [by left|].
  right. by apply length_zero_iff_nil.
Qed.

(** X12.  [find_path] never looks into "/" from below: started in a
    directory other than "/", it raises its [ValueError] as soon as neither
    the working directory nor any ancestor below "/" lists the folder,
    whether or not "/" holds it. *)
Theorem find_path_misses_root :
  cwd ≠ [] →
  (∀ i, 1 ≤ i ≤ length cwd →
     ∃ names, listdir (take i cwd) = Returned names ∧ folder_name ∉ names) →
  find_path listdir cwd folder_name = Some (NotFound (not_found_message folder_name)).
Proof.
  intros Hcwd Hnone.
  assert (Hlen : 1 ≤ length cwd).
  { destruct cwd; [done|simpl; lia]. }
  destruct find_path_is_some as [o Hrun]. rewrite Hrun.
  unfold find_path in Hrun. rewrite <- (firstn_all cwd) in Hrun at 2.
  apply find_loop_outcome in Hrun as (k & Hk & Hroot & Hpassed & Ho); [|done].
  destruct Hroot as [Hk1|?]; [|lia].
  destruct (Hnone k) as (names & Hl & Hnot); [lia|].
  destruct o as [p|message|e].
  - destruct Ho as (_ & names' & Hl' & Hin). congruence.
  - by destruct Ho as (-> & _).
  - congruence.
Qed.

(** X13.  [find_path] finds the folder in the nearest directory that lists
    it: when the directory [k] names deep ([k] at least 1) on the way from
    "/" to the working directory lists the folder, and the directories
    below it on that way can be listed and do not, the path returned is the
    folder inside that directory. *)
Theorem find_path_finds k names :
  1 ≤ k ≤ length cwd →
  listdir (take k cwd) = Returned names → folder_name ∈ names →
  (∀ i, k < i ≤ length cwd →
     ∃ names', listdir (take i cwd) = Returned names' ∧ folder_name ∉ names') →
  find_path listdir cwd folder_name
  = Some (Found (take k cwd ++ [folder_name])).
Proof.
  intros Hk Hl Hin Hbelow.
  destruct find_path_is_some as [o Hrun]. rewrite Hrun.
  unfold find_path in Hrun. rewrite <- (firstn_all cwd) in Hrun at 2.
  apply find_loop_outcome in Hrun as (k' & Hk' & _ & Hpassed & Ho); [|done].
  assert (k' = k) as ->.
  { destruct (decide (k' < k)) as [Hlt|Hge].
    - destruct (Hpassed k) as (names' & Hl' & Hnot); [lia|]. congruence.
    - destruct (decide (k < k')) as [Hgt|?]; [|lia].
      destruct (Hbelow k') as (names' & Hl' & Hnot); [lia|].
      destruct o as [p|message|e].
      + destruct Ho as (_ & names'' & Hl'' & Hin''). congruence.
      + destruct Ho as (_ & ? & _). lia.
      + congruence. }
  destruct o as [p|message|e].
  - by destruct Ho as (-> & _).
  - destruct Ho as (_ & _ & names' & Hl' & Hnot). congruence.
  - congruence.
Qed.

End FindPathProperties.

(** * More on the script *)

Section MoreProperties.

Context {float S : Type} (E : env float S).
Context (py_str : option payload → string) (config_path : string).

Implicit Types (s : S) (t : list (event float)) (self : QdrantSearch).

(** X1.  [read_config] never raises.  It returns what the loader returned;
    after any exception of the loader it returns [None], having logged one
    error on the module logger, with the traceback only for a YAML error. *)
Theorem read_config_never_raises filepath s :
  ∃ resp s1,
    load_yaml E s filepath = (resp, s1) ∧
    match resp with
    | Returned c =>
        read_config E filepath s
        = (Returned c, s1, [EvLoadYaml filepath resp])
    | Raised e =>
        ∃ msg info,
          read_config E filepath s
          = (Returned YNull, s1,
             [EvLoadYaml filepath resp;
              EvLog (LogRecord ModuleLogger ERROR msg info)]) ∧
          (info = true ↔ exn_class_of e = YAMLError)
    end.
Proof.
  unfold read_config, try_catch, safe_load, perform.
  destruct (load_yaml E s filepath) as [[c|e] s1].
  - by exists (Returned c), s1.
  - exists (Raised e), s1. split; [done|].
    destruct e as [[] txt]; simpl; eexists _, _; (split; [reflexivity|]);
      split; congruence.
Qed.

(** X2.  [get_embedding] never raises.  It asks for the embedding of the one
    text with the model "large"; it returns the first embedding with its
    length, and [None], after logging one error with its traceback, when the
    call raised or returned no embedding. *)
Theorem get_embedding_never_raises self text0 s :
  ∃ resp s1 value logs,
    embed E s [text0] "large" = (resp, s1) ∧
    get_embedding E self text0 s
    = (Returned value, s1, EvEmbed [text0] "large" resp :: logs) ∧
    match resp with
    | Returned (v :: _) => value = Some (v, length v) ∧ logs = []
    | _ =>
        value = None ∧
        ∃ msg, logs = [EvLog (LogRecord ClassLogger ERROR msg true)]
    end.
Proof.
  destruct (get_embedding_run E self text0 s) as (resp & s1 & He & Hg).
  exists resp, s1, ((λ v, (v, length v)) <$> embedded resp), (embedding_log resp).
  split; [done|]. split; [done|].
  destruct resp as [[|v vs]|e]; simpl; (split; [done|]); try done;
    by eexists.
Qed.

Lemma embed_events_answered rs
    (resps : list (list float * list (list float))) :
  Forall answered (embed_events rs resps).
Proof.
  unfold embed_events. revert resps.
  induction rs as [|r rs IH]; intros [|p resps]; simpl;
    constructor; [by eexists|apply IH].
Qed.

Lemma upsert_log_answered (resp : result unit) :
  Forall (answered (float:=float)) (upsert_log resp).
Proof. destruct resp as [[]|e]; by repeat constructor. Qed.

(** X5.  An exception of [upsert] never leaves [update_qdrant]: it is logged
    with its traceback and the method returns.  [update_qdrant] returns
    exactly when every embedding call it made was answered, and the only
    exception it raises is the [TypeError] of unpacking [None]. *)
Theorem update_qdrant_swallows_upsert_failure self s r s' t :
  update_qdrant E self s = (r, s', t) →
  ((r = Returned () ∧ Forall answered t) ∨
   (r = Raised unpack_error ∧ ¬ Forall answered t)) ∧
  ∀ name points e,
    EvUpsert name points (Raised e) ∈ t →
    r = Returned () ∧
    EvLog (LogRecord ClassLogger ERROR
             ("Error upserting the vectors to the qdrant collection: "
                +:+ exn_text e) true) ∈ t.
Proof.
  intros [(-> & Hall & texts & model & resp & Hin & Hnone)
         |(resps & s1 & uresp & -> & Hlen & Hup & ->)]%update_qdrant_run.
  - split.
    + right. split; [done|]. intros Hans.
      eapply Forall_forall in Hans; [|exact Hin].
      simpl in Hans. rewrite Hnone in Hans. by destruct Hans.
    + intros name points e Hup.
      by apply (Forall_forall (@embedding_event float) t)
        with (x := EvUpsert name points (Raised e)) in Hall.
  - split.
    + left. split; [done|]. apply Forall_app. split.
      * apply embed_events_answered.
      * constructor; [done|apply upsert_log_answered].
    + intros name points e [Hin|Hin]%elem_of_app.
      { pose proof (embed_events_embed (resumes self) resps) as Hall.
        by eapply Forall_forall in Hall; [|exact Hin]. }
      apply elem_of_cons in Hin as [Hin|Hin];
        [|by apply upsert_log_logs in Hin as [? ?]].
      injection Hin as -> -> <-. split; [done|].
      apply elem_of_app. right. apply elem_of_cons. right.
      apply elem_of_cons. by left.
Qed.

(** The loop of [update_qdrant] when it raises: the resumes before the one
    that failed were embedded, that one was asked for last, and nothing
    else happened. *)
Lemma update_loop_stops self rs : ∀ i vs0 is0 s e s' t,
  update_loop E self i rs vs0 is0 s = (Raised e, s', t) →
  ∃ k resume resps resp,
    rs !! k = Some resume ∧ length resps = k ∧ embedded resp = None ∧
    t = embed_events (take k rs) resps
        ++ EvEmbed [resume] "large" resp :: embedding_log resp.
Proof.
  induction rs as [|resume rest IH]; intros i vs0 is0 s e s' t H; [done|].
  cbn [update_loop] in H.
  destruct (get_embedding_run E self resume s) as (resp & s1 & He & Hg).
  apply bind_run in H as [(got & s1' & t1 & t2 & Hm & H & ->)|(e' & Hm & _)];
    rewrite Hg in Hm; [|done]. injection Hm as <- <- <-.
  destruct (embedded resp) as [v|] eqn:Hv; simpl in H.
  - apply bind_run in H
      as [(un & s2 & t3 & t4 & Hm & H & ->)|(e' & Hm & _)]; [|done].
    injection Hm as <- <- <-. simpl in H.
    apply IH in H as (k & resume' & resps & resp' & Hk & Hlen & Hnone & ->).
    destruct resp as [[|v' vs']|?]; simplify_eq/=.
    exists (Datatypes.S (length resps)), resume', ((v, vs') :: resps), resp'.
    by repeat split.
  - apply bind_run in H
      as [(un & s2 & t3 & t4 & Hm & H & ->)|(e' & Hm & _)]; [done|].
    injection Hm as _ <- <-. rewrite app_nil_r.
    by exists 0, resume, [], resp.
Qed.

Lemma upserts_embed_events rs
    (resps : list (list float * list (list float))) :
  upserts (embed_events rs resps) = [].
Proof.
  unfold embed_events. revert resps.
  induction rs as [|r rs IH]; intros [|p resps]; simpl; auto.
Qed.

(** X6.  When an embedding fails, [update_qdrant] upserts nothing, not even
    the resumes it had embedded: the resumes before the failing one were
    each embedded, the failing one is the last thing asked for, and no
    [upsert] is issued. *)
Theorem update_qdrant_stops_at_failed_embedding self s e s' t :
  update_qdrant E self s = (Raised e, s', t) →
  upserts t = [] ∧
  ∃ k resume resps resp,
    resumes self !! k = Some resume ∧ length resps = k ∧
    embedded resp = None ∧
    t = embed_events (take k (resumes self)) resps
        ++ EvEmbed [resume] "large" resp :: embedding_log resp.
Proof.
  unfold update_qdrant. intros H.
  apply bind_run in H as [(f & s1 & t1 & t2 & Hm & H & ->)|(e' & Hm & _)].
  { destruct f as [vs1 is1]. unfold try_catch, perform in H.
    destruct (upsert E s1 collection_name _) as [[[]|?] ?]; discriminate H. }
  apply update_loop_stops in Hm
    as (k & resume & resps & resp & Hk & Hlen & Hnone & ->).
  split; [|by exists k, resume, resps, resp].
  rewrite upserts_app, upserts_embed_events. simpl.
  by destruct resp as [[|??]|?].
Qed.

Lemma bind_ret {A B} (a : A) (k : A → M float S B) s :
  bind (ret a) k s = k a s.
Proof. unfold bind, ret. by destruct (k a s) as [[??]?]. Qed.

Lemma bind_raise {A B} (e : exn) (k : A → M float S B) s :
  bind (raise e) k s = (Raised e, s, []).
Proof. done. Qed.

(** [cfg[section][key]] when the entry is there. *)
Lemma subscript_entry {B} cfg section key v (k : yaml → M float S B) s :
  config_entry cfg section key = Some v →
  bind (subscript cfg section) (λ c, bind (subscript c key) k) s = k v s.
Proof.
  unfold config_entry. destruct cfg as [| | | | | |m]; try done.
  destruct (m !! section) as [[| | | | | |c]|] eqn:Hsec; try done.
  intros Hkey. cbn [subscript]. rewrite Hsec, bind_ret.
  cbn [subscript]. by rewrite Hkey, bind_ret.
Qed.

(** [cfg[section][key]] when the entry is missing: a [KeyError] or a
    [TypeError], and nothing else happens. *)
Lemma subscript_no_entry {B} cfg section key (k : yaml → M float S B) s :
  config_entry cfg section key = None →
  ∃ e, bind (subscript cfg section) (λ c, bind (subscript c key) k) s
       = (Raised e, s, []) ∧
       (exn_class_of e = KeyError ∨ exn_class_of e = TypeError).
Proof.
  unfold config_entry.
  destruct cfg as [| | | | | |m]; cbn [subscript];
    try (intros _; eexists; split; [apply bind_raise|by right]).
  destruct (m !! section) as [c|] eqn:Hsec.
  2: { intros _. eexists; split; [apply bind_raise|by left]. }
  rewrite bind_ret.
  destruct c as [| | | | | |c]; cbn [subscript];
    try (intros _; eexists; split; [apply bind_raise|by right]).
  intros ->. eexists; split; [apply bind_raise|by left].
Qed.

(** X3.  With a configuration that has the three entries, [__init__]
    constructs the Cohere client with [cohere.api_key], then the Qdrant
    client with [qdrant.url] and [qdrant.api_key], then recreates the
    collection; the first of these to raise ends it with that exception and
    the later ones are not called; when all return, the object holds the
    three entries, the resumes and the job description. *)
Theorem init_wires_configuration resumes0 jd0 s cfg s1 ck qk url :
  load_yaml E s (config_path +:+ "/config.yml") = (Returned cfg, s1) →
  config_entry cfg "cohere" "api_key" = Some ck →
  config_entry cfg "qdrant" "api_key" = Some qk →
  config_entry cfg "qdrant" "url" = Some url →
  QdrantSearch_init E config_path resumes0 jd0 s
  = match cohere_client E s1 ck with
    | (Raised e, s2) =>
        (Raised e, s2,
         [EvLoadYaml (config_path +:+ "/config.yml") (Returned cfg);
          EvCohereClient ck (Raised e)])
    | (Returned u1, s2) =>
        match qdrant_client E s2 url qk with
        | (Raised e, s3) =>
            (Raised e, s3,
             [EvLoadYaml (config_path +:+ "/config.yml") (Returned cfg);
              EvCohereClient ck (Returned u1);
              EvQdrantClient url qk (Raised e)])
        | (Returned u2, s3) =>
            match recreate_collection E s3 collection_name 4096 COSINE with
            | (Raised e, s4) =>
                (Raised e, s4,
                 [EvLoadYaml (config_path +:+ "/config.yml") (Returned cfg);
                  EvCohereClient ck (Returned u1);
                  EvQdrantClient url qk (Returned u2);
                  EvRecreate collection_name 4096 COSINE (Raised e)])
            | (Returned b, s4) =>
                (Returned (MkQdrantSearch ck qk url resumes0 jd0), s4,
                 [EvLoadYaml (config_path +:+ "/config.yml") (Returned cfg);
                  EvCohereClient ck (Returned u1);
                  EvQdrantClient url qk (Returned u2);
                  EvRecreate collection_name 4096 COSINE (Returned b)])
            end
        end
    end.
Proof.
  intros Hload Hck Hqk Hurl.
  destruct (read_config_run E (config_path +:+ "/config.yml") s)
    as (resp & s1' & logs & Hl & Hrc & Hlogs).
  rewrite Hload in Hl. injection Hl as <- <-. subst logs.
  unfold QdrantSearch_init. erewrite bind_returned by exact Hrc.
  rewrite (subscript_entry _ _ _ _ _ _ Hck).
  rewrite (subscript_entry _ _ _ _ _ _ Hqk).
  rewrite (subscript_entry _ _ _ _ _ _ Hurl).
  change 4096 with vector_size.
  unfold bind, perform, ret.
  destruct (cohere_client E s1 ck) as [[u1|e] s2]; [|done].
  destruct (qdrant_client E s2 url qk) as [[u2|e] s3]; [|done].
  by destruct (recreate_collection E s3 collection_name vector_size COSINE)
    as [[b|e] s4].
Qed.

(** X4.  With a configuration that loads but lacks one of the three entries,
    [__init__] raises a [KeyError] or a [TypeError] right after loading:
    no client is constructed and the collection is not touched. *)
Theorem init_without_entry resumes0 jd0 s cfg s1 :
  load_yaml E s (config_path +:+ "/config.yml") = (Returned cfg, s1) →
  config_entry cfg "cohere" "api_key" = None ∨
  config_entry cfg "qdrant" "api_key" = None ∨
  config_entry cfg "qdrant" "url" = None →
  ∃ e,
    QdrantSearch_init E config_path resumes0 jd0 s
    = (Raised e, s1,
       [EvLoadYaml (config_path +:+ "/config.yml") (Returned cfg)]) ∧
    (exn_class_of e = KeyError ∨ exn_class_of e = TypeError).
Proof.
  intros Hload Hmissing.
  destruct (read_config_run E (config_path +:+ "/config.yml") s)
    as (resp & s1' & logs & Hl & Hrc & Hlogs).
  rewrite Hload in Hl. injection Hl as <- <-. subst logs.
  unfold QdrantSearch_init. erewrite bind_returned by exact Hrc.
  destruct (config_entry cfg "cohere" "api_key") as [ck|] eqn:Hck.
  2: { match goal with
       | |- context [bind (subscript cfg ?sec) (λ c, bind (subscript c ?key) ?k) s1] =>
           destruct (subscript_no_entry cfg sec key k s1 Hck) as (e & -> & Hclass)
       end.
       by exists e. }
  rewrite (subscript_entry _ _ _ _ _ _ Hck).
  destruct (config_entry cfg "qdrant" "api_key") as [qk|] eqn:Hqk.
  2: { match goal with
       | |- context [bind (subscript cfg ?sec) (λ c, bind (subscript c ?key) ?k) s1] =>
           destruct (subscript_no_entry cfg sec key k s1 Hqk) as (e & -> & Hclass)
       end.
       by exists e. }
  rewrite (subscript_entry _ _ _ _ _ _ Hqk).
  destruct (config_entry cfg "qdrant" "url") as [url|] eqn:Hurl.
  { by destruct Hmissing as [?|[?|?]]. }
  match goal with
  | |- context [bind (subscript cfg ?sec) (λ c, bind (subscript c ?key) ?k) s1] =>
      destruct (subscript_no_entry cfg sec key k s1 Hurl) as (e & -> & Hclass)
  end.
  by exists e.
Qed.

Lemma calls_app (t1 t2 : list (event float)) :
  calls (t1 ++ t2) = calls t1 ++ calls t2.
Proof.
  induction t1 as [|[] t1 IH]; simpl; try done; by rewrite IH.
Qed.

Lemma embed_requests_app (t1 t2 : list (event float)) :
  embed_requests (t1 ++ t2) = embed_requests t1 ++ embed_requests t2.
Proof.
  induction t1 as [|[] t1 IH]; simpl; try done. by rewrite IH.
Qed.

Lemma embed_requests_setup (t : list (event float)) :
  Forall setup_event t → embed_requests t = [].
Proof.
  induction 1 as [|ev t Hev _ IH]; [done|]. by destruct ev.
Qed.

(** The calls and the log lines of [__init__]: the loader, the two clients
    and [recreate_collection], in this order and as far as it gets; all of
    them when it returns; and only error lines in the log. *)
Lemma init_calls resumes0 jd0 s r s' t :
  QdrantSearch_init E config_path resumes0 jd0 s = (r, s', t) →
  calls t `prefix_of` [LoadYaml; CohereClient; QdrantClient; Recreate] ∧
  (∀ self, r = Returned self →
     calls t = [LoadYaml; CohereClient; QdrantClient; Recreate]) ∧
  (∀ l, EvLog l ∈ t → log_level_of l = ERROR).
Proof.
  intros H. unfold QdrantSearch_init in H.
  destruct (read_config_run E (config_path +:+ "/config.yml") s)
    as (resp & s1 & logs & _ & Hrc & Hlogs).
  apply bind_run in H as [(cfg & s1' & t1 & t2 & Hm & H & ->)|(e & Hm & ->)];
    rewrite Hrc in Hm; [|done]. injection Hm as <- <- <-. clear Hrc.
  assert (Hhead : calls (EvLoadYaml (config_path +:+ "/config.yml") resp :: logs)
                  = [LoadYaml] ∧
                  ∀ l, EvLog l ∈ logs → log_level_of l = ERROR).
  { destruct resp as [c|e].
    - subst logs. split; [done|]. by intros l ?%elem_of_nil.
    - destruct Hlogs as (msg & info & ->). split; [done|].
      by intros l [= ->]%list_elem_of_singleton. }
  destruct Hhead as [Hhead Herr]. clear Hlogs.
  set (cfg := match resp with Returned c => c | Raised _ => YNull end) in H.
  clearbody cfg.
  cut (calls t2 `prefix_of` [CohereClient; QdrantClient; Recreate] ∧
       (∀ self, r = Returned self →
          calls t2 = [CohereClient; QdrantClient; Recreate]) ∧
       (∀ l, EvLog l ∉ t2)).
  { intros (Hpre & Hall & Hnolog). rewrite calls_app, Hhead.
    split; [by apply (prefix_app [LoadYaml])|].
    split; [intros self Hself; by rewrite (Hall self Hself)|].
    intros l [Hin|Hin]%elem_of_app; [|by apply Hnolog in Hin].
    apply elem_of_cons in Hin as [?|Hin]; [done|by apply Herr]. }
  clear Hhead Herr.
  do 6 (apply subscript_step in H as [[? H]|(e & -> & -> & ->)];
        [|split; [by eexists|split; [done|by intros l ?%elem_of_nil]]]).
  apply perform_step in H
    as [(? & sa & ta & Ha & H & ->)|(e & Ha & -> & ->)].
  2: { split; [by eexists|]. split; [done|].
       by intros l [?|?%elem_of_nil]%elem_of_cons. }
  apply perform_step in H
    as [(? & sb & tb & Hb & H & ->)|(e & Hb & -> & ->)].
  2: { split; [by eexists|]. split; [done|].
       by intros l [?|[?|?%elem_of_nil]%elem_of_cons]%elem_of_cons. }
  apply perform_step in H
    as [(b & sc & tc & Hc & H & ->)|(e & Hc & -> & ->)].
  2: { split; [by eexists|]. split; [done|].
       by intros l
         [?|[?|[?|?%elem_of_nil]%elem_of_cons]%elem_of_cons]%elem_of_cons. }
  injection H as <- <- <-.
  split; [by exists []|]. split; [done|].
  by intros l
    [?|[?|[?|?%elem_of_nil]%elem_of_cons]%elem_of_cons]%elem_of_cons.
Qed.

Lemma calls_upsert_log (resp : result unit) :
  calls (upsert_log (float:=float) resp) = [].
Proof. by destruct resp as [[]|e]. Qed.

Lemma calls_embedding_log (resp : result (list (list float))) :
  calls (embedding_log resp) = [].
Proof. by destruct resp as [[|??]|e]. Qed.

Lemma embed_requests_upsert_log (resp : result unit) :
  embed_requests (upsert_log (float:=float) resp) = [].
Proof. by destruct resp as [[]|e]. Qed.

Lemma embed_requests_embedding_log (resp : result (list (list float))) :
  embed_requests (embedding_log resp) = [].
Proof. by destruct resp as [[|??]|e]. Qed.

Lemma upsert_log_level (resp : result unit) l :
  EvLog (float:=float) l ∈ upsert_log resp → log_level_of l = ERROR.
Proof.
  destruct resp as [[]|e]; simpl.
  - by intros ?%elem_of_nil.
  - by intros [= ->]%list_elem_of_singleton.
Qed.

Lemma embedding_log_level (resp : result (list (list float))) l :
  EvLog l ∈ embedding_log resp → log_level_of l = ERROR.
Proof.
  destruct resp as [[|??]|e]; simpl.
  - by intros [= ->]%list_elem_of_singleton.
  - by intros ?%elem_of_nil.
  - by intros [= ->]%list_elem_of_singleton.
Qed.

(** X7.  A call of [get_similarity_score] asks for at most two embeddings,
    first of the resume alone and then of the job description alone, always
    with the model "large"; and the vector a search is issued with is the
    first embedding returned for the job description. *)
Theorem run_embedding_requests resume_string jd0 s r s' t :
  get_similarity_score E py_str config_path resume_string jd0 s = (r, s', t) →
  embed_requests t `prefix_of` [[resume_string]; [jd0]] ∧
  (∀ texts model resp, EvEmbed texts model resp ∈ t → model = "large") ∧
  (∀ name q limit resp,
      EvSearch name q limit resp ∈ t →
      ∃ qs, EvEmbed [jd0] "large" (Returned (q :: qs)) ∈ t).
Proof.
  intros H%get_similarity_score_run.
  inversion H; subst; clear H;
    match goal with
    | Hi : QdrantSearch_init _ _ _ _ _ = _ |- _ =>
        apply init_run in Hi as (Hsetup & _ & _)
    end.
  all: split;
    [unfold started; cbn [embed_requests];
     rewrite ?embed_requests_app; cbn [embed_requests];
     rewrite ?embed_requests_app; cbn [embed_requests];
     rewrite ?embed_requests_setup, ?embed_requests_upsert_log,
       ?embed_requests_embedding_log by done;
     cbn [app]; by eexists|].
  all: split;
    [intros texts model resp0 Hin|intros name q0 limit resp0 Hin].
  all: repeat first
         [ apply elem_of_nil in Hin; destruct Hin
         | apply elem_of_cons in Hin as [Hin|Hin]
         | apply elem_of_app in Hin as [Hin|Hin] ];
       try discriminate Hin;
       try (apply upsert_log_logs in Hin as [? Hin]; discriminate Hin);
       try (apply embedding_log_logs in Hin as [? Hin]; discriminate Hin);
       try (apply (setup_event_in _ _ Hsetup) in Hin; destruct Hin).
  all: try by injection Hin.
  all: injection Hin as -> -> -> ->; exists qs.
  all: apply elem_of_cons; right; apply elem_of_app; right;
    do 2 (apply elem_of_cons; right); apply elem_of_app; right;
    apply elem_of_cons; by left.
Qed.

(** X8.  The log of a call of [get_similarity_score] opens with the line
    "Started getting similarity score"; the line "Finished getting
    similarity score" is in it exactly when the call returns a list, and is
    then its last line. *)
Theorem run_log_bracket resume_string jd0 s r s' t :
  get_similarity_score E py_str config_path resume_string jd0 s = (r, s', t) →
  head t = Some started ∧
  (finished ∈ t ↔ ∃ results, r = Returned results) ∧
  (∀ results, r = Returned results → last t = Some finished).
Proof.
  intros H%get_similarity_score_run.
  assert (Hinfo : ∀ t0 : list (event float),
            (∀ l, EvLog l ∈ t0 → log_level_of l = ERROR) → finished ∉ t0).
  { intros t0 Herr Hin. by apply Herr in Hin. }
  inversion H; subst; clear H;
    match goal with
    | Hi : QdrantSearch_init _ _ _ _ _ = _ |- _ =>
        apply init_calls in Hi as (_ & _ & Herr)
    end;
    (split; [done|]).
  1-4: split; [|done]; split; [|by intros [? ?]]; intros Hin.
  1-4: repeat first
         [ apply elem_of_nil in Hin; destruct Hin
         | apply elem_of_cons in Hin as [Hin|Hin]
         | apply elem_of_app in Hin as [Hin|Hin] ];
       try discriminate Hin;
       try (by apply Hinfo in Hin);
       try (by apply upsert_log_level in Hin);
       try (by apply embedding_log_level in Hin).
  split.
  - split; [by eexists|]. intros _.
    apply elem_of_cons. right. apply elem_of_app. right.
    do 2 (apply elem_of_cons; right). apply elem_of_app. right.
    do 2 (apply elem_of_cons; right). apply elem_of_cons. by left.
  - intros results _.
    rewrite !app_comm_cons, app_assoc.
    change [?a; ?b; finished] with ([a; b] ++ [finished]).
    by rewrite app_assoc, last_snoc.
Qed.

(** X9.  The collaborators are called in one fixed order: the loader of the
    configuration, the Cohere client, the Qdrant client,
    [recreate_collection], the embedding of the resume, [upsert], the
    embedding of the job description, [search].  The calls of any run are a
    beginning of this sequence, and the whole of it when the run returns. *)
Theorem run_call_order resume_string jd0 s r s' t :
  get_similarity_score E py_str config_path resume_string jd0 s = (r, s', t) →
  calls t `prefix_of`
    [LoadYaml; CohereClient; QdrantClient; Recreate;
     Embed; Upsert; Embed; Search] ∧
  (∀ results, r = Returned results →
     calls t = [LoadYaml; CohereClient; QdrantClient; Recreate;
                Embed; Upsert; Embed; Search]).
Proof.
  intros H%get_similarity_score_run.
  inversion H; subst; clear H;
    match goal with
    | Hi : QdrantSearch_init _ _ _ _ _ = _ |- _ =>
        apply init_calls in Hi as (Hpre & Hall & _)
    end.
  { split; [|done]. unfold started. cbn [calls].
    etrans; [exact Hpre|]. by exists [Embed; Upsert; Embed; Search]. }
  all: specialize (Hall self eq_refl).
  all: unfold started, finished; cbn [calls];
    rewrite ?calls_app; cbn [calls]; rewrite ?calls_app; cbn [calls];
    rewrite ?calls_upsert_log, ?calls_embedding_log, Hall; cbn [app].
  all: split; [by eexists|done].
Qed.

End MoreProperties.

(** * The further properties on the stand-ins *)

Lemma find_path_nearest_witness :
  ∃ k names,
    k ≤ 4 ∧ (1 ≤ k ∨ ["home"; "dev"; "ATS_hacking"; "scripts"] = []) ∧
    ["home"; "dev"; "ATS_hacking"]
    = take k ["home"; "dev"; "ATS_hacking"; "scripts"] ++ ["ATS_hacking"] ∧
    stub_listdir (take k ["home"; "dev"; "ATS_hacking"; "scripts"])
    = Returned names ∧
    "ATS_hacking" ∈ names ∧
    ∀ i, k < i ≤ 4 →
      ∃ names',
        stub_listdir (take i ["home"; "dev"; "ATS_hacking"; "scripts"])
        = Returned names' ∧
        "ATS_hacking" ∉ names'.
Proof.
  apply (find_path_nearest stub_listdir
           ["home"; "dev"; "ATS_hacking"; "scripts"] "ATS_hacking").
  reflexivity.
Defined.

Lemma find_path_misses_root_witness :
  stub_listdir [] = Returned ["home"; "ATS_hacking"; "tmp"] ∧
  find_path stub_listdir ["ATS_hacking"; "scripts"] "ATS_hacking"
  = Some (NotFound "Folder 'ATS_hacking' not found.").
Proof.
  split; [reflexivity|].
  apply (find_path_misses_root stub_listdir ["ATS_hacking"; "scripts"]
           "ATS_hacking"); [done|].
  intros [|[|[|i]]] Hi; simpl in Hi; try lia;
    (eexists; split; [reflexivity|]);
    apply (bool_decide_unpack _); vm_compute; exact I.
Defined.

Lemma find_path_finds_witness :
  find_path stub_listdir ["home"; "dev"; "ATS_hacking"; "scripts"] "ATS_hacking"
  = Some (Found ["home"; "dev"; "ATS_hacking"]).
Proof.
  apply (find_path_finds stub_listdir
           ["home"; "dev"; "ATS_hacking"; "scripts"] "ATS_hacking"
           2 ["ATS_hacking"; "notes"]).
  - simpl. lia.
  - reflexivity.
  - apply elem_of_cons. by left.
  - intros [|[|[|[|[|i]]]]] Hi; simpl in Hi; try lia;
      (eexists; split; [reflexivity|]);
      apply (bool_decide_unpack _); vm_compute; exact I.
Defined.

Lemma init_wires_configuration_witness :
  QdrantSearch_init stub_ok "/srv" [stub_resume] stub_jd stub_stale
  = (Returned (stub_self [stub_resume]),
     <[collection_name := []]> stub_stale,
     [EvLoadYaml "/srv/config.yml" (Returned stub_config);
      EvCohereClient (YStr "cohere-key") (Returned ());
      EvQdrantClient (YStr "https://qdrant.example") (YStr "qdrant-key")
                     (Returned ());
      EvRecreate collection_name 4096 COSINE (Returned true)]).
Proof.
  apply (init_wires_configuration stub_ok "/srv" [stub_resume] stub_jd
           stub_stale stub_config stub_stale
           (YStr "cohere-key") (YStr "qdrant-key")
           (YStr "https://qdrant.example"));
    vm_compute; reflexivity.
Defined.

Lemma init_without_entry_witness :
  ∃ e,
    QdrantSearch_init (stub_env (Returned stub_config_no_url) (stub_embedding 3))
                      "/srv" [stub_resume] stub_jd stub_stale
    = (Raised e, stub_stale,
       [EvLoadYaml "/srv/config.yml" (Returned stub_config_no_url)]) ∧
    (exn_class_of e = KeyError ∨ exn_class_of e = TypeError).
Proof.
  apply (init_without_entry
           (stub_env (Returned stub_config_no_url) (stub_embedding 3))
           "/srv" [stub_resume] stub_jd stub_stale stub_config_no_url
           stub_stale); [reflexivity|].
  right. right. vm_compute. reflexivity.
Defined.

Lemma stub_upsert_down_update_eq :
  update_qdrant stub_upsert_down (stub_self ["alpha"; "beta"])
                (<[collection_name := []]> stub_stale)
  = ((update_qdrant stub_upsert_down (stub_self ["alpha"; "beta"])
        (<[collection_name := []]> stub_stale)).1.1,
     (update_qdrant stub_upsert_down (stub_self ["alpha"; "beta"])
        (<[collection_name := []]> stub_stale)).1.2,
     (update_qdrant stub_upsert_down (stub_self ["alpha"; "beta"])
        (<[collection_name := []]> stub_stale)).2).
Proof. by destruct (update_qdrant _ _ _) as [[??]?]. Qed.

Lemma update_qdrant_swallows_upsert_failure_witness :
  (update_qdrant stub_upsert_down (stub_self ["alpha"; "beta"])
     (<[collection_name := []]> stub_stale)).1.1 = Returned ().
Proof.
  destruct (update_qdrant_swallows_upsert_failure _ _ _ _ _ _
              stub_upsert_down_update_eq) as [_ Hlogged].
  apply (Hlogged collection_name
           (resume_batch ["alpha"; "beta"] [[5; 5; 5]%Z; [4; 4; 4]%Z])
           (Exn OtherException "upsert timed out")).
  apply (list_elem_of_lookup_2 _ 2).
  vm_cast_no_check
    (eq_refl ((update_qdrant stub_upsert_down (stub_self ["alpha"; "beta"])
                 (<[collection_name := []]> stub_stale)).2 !! 2)).
Defined.

Lemma stub_flaky_update_eq :
  update_qdrant stub_embed_flaky (stub_self ["alpha"; "beta"; "gamma"])
                (<[collection_name := []]> stub_stale)
  = (Raised unpack_error,
     (update_qdrant stub_embed_flaky (stub_self ["alpha"; "beta"; "gamma"])
        (<[collection_name := []]> stub_stale)).1.2,
     (update_qdrant stub_embed_flaky (stub_self ["alpha"; "beta"; "gamma"])
        (<[collection_name := []]> stub_stale)).2).
Proof.
  vm_cast_no_check
    (eq_refl (update_qdrant stub_embed_flaky
                (stub_self ["alpha"; "beta"; "gamma"])
                (<[collection_name := []]> stub_stale))).
Qed.

Lemma update_qdrant_stops_at_failed_embedding_witness :
  upserts (update_qdrant stub_embed_flaky (stub_self ["alpha"; "beta"; "gamma"])
             (<[collection_name := []]> stub_stale)).2 = [].
Proof.
  exact (proj1 (update_qdrant_stops_at_failed_embedding _ _ _ _ _ _
                  stub_flaky_update_eq)).
Defined.

Lemma run_embedding_requests_witness :
  embed_requests (stub_run stub_ok).2 `prefix_of` [[stub_resume]; [stub_jd]].
Proof.
  exact (proj1 (run_embedding_requests _ _ _ _ _ _ _ _ _
                  (stub_run_eq stub_ok))).
Defined.

Lemma run_log_bracket_witness :
  last (stub_run stub_many).2 = Some finished.
Proof.
  exact (proj2 (proj2 (run_log_bracket _ _ _ _ _ _ _ _ _ stub_many_returns))
           _ eq_refl).
Defined.

Lemma run_call_order_witness :
  calls (stub_run stub_many).2
  = [LoadYaml; CohereClient; QdrantClient; Recreate;
     Embed; Upsert; Embed; Search].
Proof.
  exact (proj2 (run_call_order _ _ _ _ _ _ _ _ _ stub_many_returns)
           _ eq_refl).
Defined.
